(** * Crazy Eights: the rule engine of [src/App.tsx]

    The component keeps one [GameState] in React state.  Every handler
    reads the [gameState] of the render it was created in and queues
    updates ([setGameState] with an updater on the previous state,
    [setMessage], [setIsAiThinking]); React then commits the queue.  The
    embedding keeps that shape: a handler is a function from the rendered
    [GameState] to the list of updates it queues, and [commit] applies the
    queue. *)

From stdpp Require Import base decidable option list relations strings.

(** ** Data model ([types.ts]) *)

Inductive Suit := hearts | diamonds | clubs | spades.

Inductive Rank := RA | R2 | R3 | R4 | R5 | R6 | R7 | R8 | R9 | R10 | RJ | RQ | RK.

Record Card := mkCard { id : string; suit : Suit; rank : Rank }.

Inductive Turn := player | ai.

Inductive GameStatus := waiting | playing | suit_picking | game_over.

Record GameState := mkGameState {
  playerHand : list Card;
  aiHand : list Card;
  drawPile : list Card;
  discardPile : list Card;
  currentSuit : Suit;
  currentRank : Rank;
  turn : Turn;
  status : GameStatus;
  winner : option Turn
}.

#[global] Instance Suit_eq_dec : EqDecision Suit.
Proof. solve_decision. Defined.
#[global] Instance Rank_eq_dec : EqDecision Rank.
Proof. solve_decision. Defined.
#[global] Instance Card_eq_dec : EqDecision Card.
Proof. solve_decision. Defined.
#[global] Instance Turn_eq_dec : EqDecision Turn.
Proof. solve_decision. Defined.
#[global] Instance GameStatus_eq_dec : EqDecision GameStatus.
Proof. solve_decision. Defined.
#[global] Instance GameState_eq_dec : EqDecision GameState.
Proof. solve_decision. Defined.

(** The texts handed to [setMessage]; the interpolated ones carry what
    is interpolated. *)
Inductive Message :=
  | MsgWelcome
  | MsgYourTurn
  | MsgPlayerWins
  | MsgAiWins
  | MsgAiPlayed (s : Suit) (r : Rank)
  | MsgAiEight (s : Suit)
  | MsgAiDrew
  | MsgAiSkipped
  | MsgInvalidPlay
  | MsgEightPlayed
  | MsgPlayed (s : Suit) (r : Rank)
  | MsgDrawPileEmpty
  | MsgDrew (s : Suit) (r : Rank)
  | MsgSuitChanged (s : Suit).

(** ** React state and queued updates *)

Record App := mkApp {
  gameState : GameState;
  message : Message;
  isAiThinking : bool
}.

Inductive Update :=
  | SetGameState (f : GameState → GameState)
  | SetMessage (m : Message)
  | SetIsAiThinking (b : bool).

Definition apply_update (a : App) (u : Update) : App :=
  match u with
  | SetGameState f => mkApp (f (gameState a)) (message a) (isAiThinking a)
  | SetMessage m => mkApp (gameState a) m (isAiThinking a)
  | SetIsAiThinking b => mkApp (gameState a) (message a) b
  end.

Definition commit (a : App) (us : list Update) : App := foldl apply_update a us.

(** The [GameState] part of a commit, and the messages a queue emits. *)
Definition exec (us : list Update) (s : GameState) : GameState :=
  foldl (λ s u, match u with SetGameState f => f s | _ => s end) s us.

Definition notifications (us : list Update) : list Message :=
  omap (λ u, match u with SetMessage m => Some m | _ => None end) us.

(** The state of [useState] at mount (lines 27-41). *)
Definition initialGameState : GameState :=
  mkGameState [] [] [] [] hearts RA player waiting None.

Definition initialApp : App := mkApp initialGameState MsgWelcome false.

(** ** Rule validator

    The test [isEight || card.suit === currentSuit || card.rank ===
    currentRank] of [playCard] (lines 171-172), which [isPlayable]
    (lines 438-440) repeats. *)
Definition isLegalPlay (card : Card) (currentSuit : Suit) (currentRank : Rank) : bool :=
  let isEight := bool_decide (rank card = R8) in
  isEight || bool_decide (suit card = currentSuit)
          || bool_decide (rank card = currentRank).

Definition isPlayable (gameState : GameState) (card : Card) : bool :=
  bool_decide (turn gameState = player) &&
  bool_decide (status gameState = playing) &&
  (bool_decide (rank card = R8) || bool_decide (suit card = currentSuit gameState)
   || bool_decide (rank card = currentRank gameState)).

(** ** Player handlers *)

(** [playCard] (lines 168-200). *)
Definition playCard (gameState : GameState) (card : Card) : list Update :=
  if bool_decide (turn gameState ≠ player) || bool_decide (status gameState ≠ playing)
  then []
  else
    let isEight := bool_decide (rank card = R8) in
    let isValid := isLegalPlay card (currentSuit gameState) (currentRank gameState) in
    if negb isValid then [SetMessage MsgInvalidPlay]
    else
      let newPlayerHand := filter (λ c, id c ≠ id card) (playerHand gameState) in
      if isEight then
        [ SetGameState (λ prev,
            mkGameState newPlayerHand (aiHand prev) (drawPile prev)
              (card :: discardPile prev) (currentSuit prev) (currentRank prev)
              (turn prev) suit_picking (winner prev));
          SetMessage MsgEightPlayed ]
      else
        [ SetGameState (λ prev,
            mkGameState newPlayerHand (aiHand prev) (drawPile prev)
              (card :: discardPile prev) (suit card) (rank card)
              ai (status prev) (winner prev));
          SetMessage (MsgPlayed (suit card) (rank card)) ].

(** [drawCard] (lines 202-219). *)
Definition drawCard (gameState : GameState) : list Update :=
  if bool_decide (turn gameState ≠ player) || bool_decide (status gameState ≠ playing)
  then []
  else
    match drawPile gameState with
    | [] =>
        [ SetMessage MsgDrawPileEmpty;
          SetGameState (λ prev,
            mkGameState (playerHand prev) (aiHand prev) (drawPile prev)
              (discardPile prev) (currentSuit prev) (currentRank prev)
              ai (status prev) (winner prev)) ]
    | drawnCard :: remainingDrawPile =>
        [ SetGameState (λ prev,
            mkGameState (playerHand prev ++ [drawnCard]) (aiHand prev)
              remainingDrawPile (discardPile prev) (currentSuit prev)
              (currentRank prev) ai (status prev) (winner prev));
          SetMessage (MsgDrew (suit drawnCard) (rank drawnCard)) ]
    end.

(** [pickSuit] (lines 221-230): it reads nothing of the rendered state. *)
Definition pickSuit (suit : Suit) : list Update :=
  [ SetGameState (λ prev,
      mkGameState (playerHand prev) (aiHand prev) (drawPile prev)
        (discardPile prev) suit R8 ai playing (winner prev));
    SetMessage (MsgSuitChanged suit) ].

(** ** Win check (the effect of lines 84-94) *)
Definition checkWin (gameState : GameState) : list Update :=
  if bool_decide (status gameState = playing) then
    if bool_decide (length (playerHand gameState) = 0) then
      [ SetGameState (λ prev,
          mkGameState (playerHand prev) (aiHand prev) (drawPile prev)
            (discardPile prev) (currentSuit prev) (currentRank prev)
            (turn prev) game_over (Some player));
        SetMessage MsgPlayerWins ]
    else if bool_decide (length (aiHand gameState) = 0) then
      [ SetGameState (λ prev,
          mkGameState (playerHand prev) (aiHand prev) (drawPile prev)
            (discardPile prev) (currentSuit prev) (currentRank prev)
            (turn prev) game_over (Some ai));
        SetMessage MsgAiWins ]
    else []
  else [].

(** ** Opponent turn *)

(** [xs.filter((x, i) => p(x, i))], the index counted from [i]. *)
Fixpoint filter_index {A} (p : A → nat → bool) (i : nat) (xs : list A) : list A :=
  match xs with
  | [] => []
  | x :: xs' =>
      if p x i then x :: filter_index p (S i) xs' else filter_index p (S i) xs'
  end.

(** [suitCounts] starts at 0 for the four keys; [forEach] increments the
    entry of each card's suit (lines 134-135). *)
Definition increment (suitCounts : Suit → nat) (s : Suit) : Suit → nat :=
  λ k, if decide (k = s) then S (suitCounts k) else suitCounts k.

Definition countSuits (hand : list Card) : Suit → nat :=
  foldl (λ suitCounts c, increment suitCounts (suit c)) (λ _, 0) hand.

(** [Object.keys(suitCounts)]: the keys in the order the literal lists
    them. *)
Definition suitKeys : list Suit := [hearts; diamonds; clubs; spades].

(** [keys.reduce((a, b) => suitCounts[a] > suitCounts[b] ? a : b)]
    (line 136); without an initial value the first key starts the
    accumulator. *)
Definition pickBestSuit (suitCounts : Suit → nat) : Suit :=
  match suitKeys with
  | [] => hearts
  | k :: keys =>
      foldl (λ a b, if bool_decide (suitCounts b < suitCounts a) then a else b) k keys
  end.

Definition bestSuit (newAiHand : list Card) : Suit := pickBestSuit (countSuits newAiHand).

(** The two scans of [handleAiTurn]. *)
Definition matches (currentSuit : Suit) (currentRank : Rank) (c : Card) : Prop :=
  rank c ≠ R8 ∧ (suit c = currentSuit ∨ rank c = currentRank).

Definition isEight (c : Card) : Prop := rank c = R8.

#[global] Instance matches_dec cs cr c : Decision (matches cs cr c).
Proof. unfold matches. apply _. Defined.
#[global] Instance isEight_dec c : Decision (isEight c).
Proof. unfold isEight. apply _. Defined.

(** [handleAiTurn] (lines 107-166).  [list_find] is [findIndex] together
    with the read [aiHand[index]]; [None] is the index -1. *)
Definition handleAiTurn (gameState : GameState) : list Update :=
  let aiHand0 := aiHand gameState in
  let currentSuit0 := currentSuit gameState in
  let currentRank0 := currentRank gameState in
  let drawPile0 := drawPile gameState in
  (match list_find (matches currentSuit0 currentRank0) aiHand0 with
   | Some (playableIndex, card) =>
       let newAiHand :=
         filter_index (λ _ i, bool_decide (i ≠ playableIndex)) 0 aiHand0 in
       [ SetGameState (λ prev,
           mkGameState (playerHand prev) newAiHand (drawPile prev)
             (card :: discardPile prev) (suit card) (rank card)
             player (status prev) (winner prev));
         SetMessage (MsgAiPlayed (suit card) (rank card)) ]
   | None =>
       match list_find isEight aiHand0 with
       | Some (eightIndex, card) =>
           let newAiHand :=
             filter_index (λ _ i, bool_decide (i ≠ eightIndex)) 0 aiHand0 in
           let bestSuit0 := bestSuit newAiHand in
           [ SetGameState (λ prev,
               mkGameState (playerHand prev) newAiHand (drawPile prev)
                 (card :: discardPile prev) bestSuit0 R8
                 player (status prev) (winner prev));
             SetMessage (MsgAiEight bestSuit0) ]
       | None =>
           match drawPile0 with
           | drawnCard :: remainingDrawPile =>
               [ SetGameState (λ prev,
                   mkGameState (playerHand prev) (aiHand prev ++ [drawnCard])
                     remainingDrawPile (discardPile prev) (currentSuit prev)
                     (currentRank prev) player (status prev) (winner prev));
                 SetMessage MsgAiDrew ]
           | [] =>
               [ SetGameState (λ prev,
                   mkGameState (playerHand prev) (aiHand prev) (drawPile prev)
                     (discardPile prev) (currentSuit prev) (currentRank prev)
                     player (status prev) (winner prev));
                 SetMessage MsgAiSkipped ]
           end
       end
   end) ++ [SetIsAiThinking false].

(** The condition under which the effect of lines 97-105 schedules
    [handleAiTurn] (the timer and [isAiThinking] are not modelled). *)
Definition aiTurnDue (gameState : GameState) : bool :=
  bool_decide (status gameState = playing) && bool_decide (turn gameState = ai).

(** ** Deck and deal *)

(** Modelled from the spec: [SUITS] of [constants.ts], which is not among
    the sources; the enumeration order is "hearts, diamonds, clubs,
    spades". *)
Definition SUITS : list Suit := [hearts; diamonds; clubs; spades].

(** Modelled from the spec: the ranks "A, 2..10, J, Q, K" in that
    order. *)
Definition RANKS : list Rank := [RA; R2; R3; R4; R5; R6; R7; R8; R9; R10; RJ; RQ; RK].

Definition suitName (s : Suit) : string :=
  match s with
  | hearts => "hearts" | diamonds => "diamonds" | clubs => "clubs" | spades => "spades"
  end.

Definition rankName (r : Rank) : string :=
  match r with
  | RA => "A" | R2 => "2" | R3 => "3" | R4 => "4" | R5 => "5" | R6 => "6"
  | R7 => "7" | R8 => "8" | R9 => "9" | R10 => "10" | RJ => "J" | RQ => "Q"
  | RK => "K"
  end.

(** Modelled from the spec: [createDeck] of [constants.ts], which is not
    among the sources.  It "produces the 52 (suit, rank) combinations in
    a fixed canonical order, each assigned a fresh unique id"; the id is
    taken to be the rank and the suit joined by a dash.  [shuffle] is
    not modelled: the deal is stated for every permutation of the
    deck. *)
Definition createDeck : list Card :=
  s ← SUITS; r ← RANKS; [mkCard (rankName r +:+ "-" +:+ suitName s) s r].

Definition INITIAL_HAND_SIZE : nat := 8.

(** What a call returns, or the [TypeError] of reading a property of
    [undefined]. *)
Inductive Outcome (A : Type) :=
  | Returned (a : A)
  | TypeError.
Arguments Returned {A} a.
Arguments TypeError {A}.

(** The loop [while (deck[firstCardIndex].rank === '8') firstCardIndex++]
    (lines 62-65); [rest] is [deck] from [firstCardIndex] on, and
    running off the end reads [deck[firstCardIndex] = undefined]. *)
Fixpoint scanStartingCard (rest : list Card) (firstCardIndex : nat) : Outcome nat :=
  match rest with
  | [] => TypeError
  | c :: rest' =>
      if bool_decide (rank c = R8) then scanStartingCard rest' (S firstCardIndex)
      else Returned firstCardIndex
  end.

(** [initGame] (lines 56-81) on the outcome [shuffled] of
    [shuffle(createDeck())]; [splice(0, n)] takes up to [n] cards off the
    front. *)
Definition initGame (shuffled : list Card) : Outcome (list Update) :=
  let playerHand0 := take INITIAL_HAND_SIZE shuffled in
  let deck := drop INITIAL_HAND_SIZE shuffled in
  let aiHand0 := take INITIAL_HAND_SIZE deck in
  let deck := drop INITIAL_HAND_SIZE deck in
  match scanStartingCard deck 0 with
  | TypeError => TypeError
  | Returned firstCardIndex =>
      match deck !! firstCardIndex with
      | None => TypeError
      | Some first =>
          let drawPile0 := delete firstCardIndex deck in
          Returned
            [ SetGameState (λ _,
                mkGameState playerHand0 aiHand0 drawPile0 [first]
                  (suit first) (rank first) player playing None);
              SetMessage MsgYourTurn ]
      end
  end.

(** The state a successful deal leaves, if any. *)
Definition deal (shuffled : list Card) : option GameState :=
  match initGame shuffled with
  | Returned us => Some (exec us initialGameState)
  | TypeError => None
  end.

(** ** Runs of the engine *)

(** The four zones a card can be in. *)
Definition zones (s : GameState) : list Card :=
  playerHand s ++ aiHand s ++ drawPile s ++ discardPile s.

(** One operation, applied to the state it was rendered with.  [playCard]
    is given a card of the rendered hand, as its only call site (the
    buttons mapped over [gameState.playerHand], lines 437-450) does; the
    other operations and the win check run in any state. *)
Inductive op_step : GameState → GameState → Prop :=
  | op_playCard s card :
      card ∈ playerHand s → op_step s (exec (playCard s card) s)
  | op_drawCard s : op_step s (exec (drawCard s) s)
  | op_pickSuit s su : op_step s (exec (pickSuit su) s)
  | op_handleAiTurn s : op_step s (exec (handleAiTurn s) s)
  | op_checkWin s : op_step s (exec (checkWin s) s).

(** The win-check effect run on the state a commit leaves. *)
Definition settle (s : GameState) : GameState := exec (checkWin s) s.

(** The suit picker is rendered only in this phase (line 483). *)
Definition suitPickerShown (gameState : GameState) : bool :=
  bool_decide (status gameState = suit_picking).

(** One interaction as the component wires it: a handler fires where its
    trigger exists, and the win check follows the commit. *)
Inductive ui_step : GameState → GameState → Prop :=
  | ui_playCard s card :
      card ∈ playerHand s → ui_step s (settle (exec (playCard s card) s))
  | ui_drawCard s : ui_step s (settle (exec (drawCard s) s))
  | ui_pickSuit s su :
      suitPickerShown s = true → ui_step s (settle (exec (pickSuit su) s))
  | ui_handleAiTurn s :
      aiTurnDue s = true → ui_step s (settle (exec (handleAiTurn s) s)).

(** ** Vocabulary of the statements *)

(** The number of cards of suit [s] in a hand. *)
Definition suitCount (hand : list Card) (s : Suit) : nat :=
  length (filter (λ c, suit c = s) hand).

(** Position of a suit in the enumeration hearts, diamonds, clubs,
    spades. *)
Definition suitIndex (s : Suit) : nat :=
  match s with hearts => 0 | diamonds => 1 | clubs => 2 | spades => 3 end.

(** The tie-break as the specification words it: the first suit, in
    enumeration order, whose count reaches the maximum. *)
Definition firstMaxSuit (hand : list Card) : Suit :=
  let n := suitCount hand in
  let top := max (max (n hearts) (n diamonds)) (max (n clubs) (n spades)) in
  if bool_decide (n hearts = top) then hearts
  else if bool_decide (n diamonds = top) then diamonds
  else if bool_decide (n clubs = top) then clubs
  else spades.

(** The four branches of the opponent's policy. *)
Inductive Branch := Match | Wild | Draw | Pass.

(** [ai_branch s s' b]: from [s] the opponent turn took branch [b] and
    left [s']. *)
Inductive ai_branch (s s' : GameState) : Branch → Prop :=
  | branch_match before card after :
      aiHand s = before ++ card :: after →
      Forall (λ c, ¬ matches (currentSuit s) (currentRank s) c) before →
      matches (currentSuit s) (currentRank s) card →
      s' = mkGameState (playerHand s) (before ++ after) (drawPile s)
             (card :: discardPile s) (suit card) (rank card)
             player (status s) (winner s) →
      ai_branch s s' Match
  | branch_wild before card after :
      Forall (λ c, ¬ matches (currentSuit s) (currentRank s) c) (aiHand s) →
      aiHand s = before ++ card :: after →
      Forall (λ c, rank c ≠ R8) before →
      rank card = R8 →
      s' = mkGameState (playerHand s) (before ++ after) (drawPile s)
             (card :: discardPile s) (bestSuit (before ++ after)) R8
             player (status s) (winner s) →
      ai_branch s s' Wild
  | branch_draw drawnCard remaining :
      Forall (λ c, ¬ matches (currentSuit s) (currentRank s) c) (aiHand s) →
      Forall (λ c, rank c ≠ R8) (aiHand s) →
      drawPile s = drawnCard :: remaining →
      s' = mkGameState (playerHand s) (aiHand s ++ [drawnCard]) remaining
             (discardPile s) (currentSuit s) (currentRank s)
             player (status s) (winner s) →
      ai_branch s s' Draw
  | branch_pass :
      Forall (λ c, ¬ matches (currentSuit s) (currentRank s) c) (aiHand s) →
      Forall (λ c, rank c ≠ R8) (aiHand s) →
      drawPile s = [] →
      s' = mkGameState (playerHand s) (aiHand s) (drawPile s)
             (discardPile s) (currentSuit s) (currentRank s)
             player (status s) (winner s) →
      ai_branch s s' Pass.

(** What holds of every state the wired component reaches. *)
Definition settled (s : GameState) : Prop :=
  match status s with
  | waiting => False
  | playing => playerHand s ≠ [] ∧ aiHand s ≠ [] ∧ winner s = None
  | suit_picking => aiHand s ≠ [] ∧ winner s = None
  | game_over =>
      (playerHand s = [] ∧ aiHand s ≠ [] ∧ winner s = Some player) ∨
      (aiHand s = [] ∧ playerHand s ≠ [] ∧ winner s = Some ai)
  end.

(** What holds between a commit and the win check that follows it. *)
Definition committed (s : GameState) : Prop :=
  match status s with
  | waiting => False
  | playing => winner s = None ∧ (playerHand s ≠ [] ∨ aiHand s ≠ [])
  | suit_picking => aiHand s ≠ [] ∧ winner s = None
  | game_over =>
      (playerHand s = [] ∧ aiHand s ≠ [] ∧ winner s = Some player) ∨
      (aiHand s = [] ∧ playerHand s ≠ [] ∧ winner s = Some ai)
  end.

(** What [initGame] scans: the deck after the two hands are dealt. *)
Definition remainder (shuffled : list Card) : list Card :=
  drop INITIAL_HAND_SIZE (drop INITIAL_HAND_SIZE shuffled).

(** The interactions, as data, to run the wired component on a script. *)
Inductive Event :=
  | PlayCard (c : Card)
  | DrawCard
  | PickSuit (su : Suit)
  | AiTurn.

Definition handler (s : GameState) (ev : Event) : list Update :=
  match ev with
  | PlayCard c => playCard s c
  | DrawCard => drawCard s
  | PickSuit su => pickSuit su
  | AiTurn => handleAiTurn s
  end.

Definition enabled (s : GameState) (ev : Event) : bool :=
  match ev with
  | PlayCard c => bool_decide (c ∈ playerHand s)
  | DrawCard => true
  | PickSuit _ => suitPickerShown s
  | AiTurn => aiTurnDue s
  end.

Fixpoint run (evs : list Event) (s : GameState) : option GameState :=
  match evs with
  | [] => Some s
  | ev :: evs' =>
      if enabled s ev then run evs' (settle (exec (handler s ev) s)) else None
  end.

(** ** Sample cards and states *)

Definition card (r : Rank) (s : Suit) : Card :=
  mkCard (rankName r +:+ "-" +:+ suitName s) s r.

(** The opponent holds an 8 and one heart and one club, and nothing
    matches the king of diamonds on the pile. *)
Definition tiedSuitsState : GameState :=
  mkGameState [card R5 diamonds]
    [card R8 spades; card R3 hearts; card R9 clubs]
    [card R4 clubs] [card RK diamonds] diamonds RK ai playing None.

(** The scenario of the specification: an 8 and two clubs against the
    two of hearts. *)
Definition twoClubsState : GameState :=
  mkGameState [card R5 diamonds]
    [card R8 spades; card R3 clubs; card R9 clubs]
    [card R4 clubs] [card R2 hearts] hearts R2 ai playing None.

(** The player to move, holding an 8 and a card that does not match. *)
Definition playerEightState : GameState :=
  mkGameState [card R8 hearts; card R5 diamonds]
    [card R3 clubs; card R9 clubs]
    [card R4 clubs; card R6 spades] [card RK spades] spades RK player playing None.

(** A shuffle in which the player holds seven hearts and the 8 of hearts,
    the pile starts on the 9 of hearts, and the opponent can only draw. *)
Definition riggedDeck : list Card :=
  ((λ r, card r hearts) <$> [RA; R2; R3; R4; R5; R6; R7; R8]) ++
  [card R9 diamonds; card R10 diamonds; card RJ diamonds; card RQ diamonds;
   card RK diamonds; card R9 clubs; card R10 clubs; card RJ clubs] ++
  [card R9 hearts] ++
  [card RQ clubs; card RK clubs; card R9 spades; card R10 spades;
   card RJ spades; card RQ spades; card RK spades] ++
  ((λ r, card r hearts) <$> [R10; RJ; RQ; RK]) ++
  ((λ r, card r diamonds) <$> [RA; R2; R3; R4; R5; R6; R7; R8]) ++
  ((λ r, card r clubs) <$> [RA; R2; R3; R4; R5; R6; R7; R8]) ++
  ((λ r, card r spades) <$> [RA; R2; R3; R4; R5; R6; R7; R8]).

(** The player sheds the hearts in order, the 8 last; the opponent's
    turn comes in between. *)
Definition lastEightScript : list Event :=
  concat ((λ r, [PlayCard (card r hearts); AiTurn]) <$> [RA; R2; R3; R4; R5; R6; R7])
  ++ [PlayCard (card R8 hearts)].

(** The state that script ends in. *)
Definition lastEightState : GameState :=
  mkGameState []
    [card R9 diamonds; card R10 diamonds; card RJ diamonds; card RQ diamonds;
     card RK diamonds; card R9 clubs; card R10 clubs; card RJ clubs;
     card RQ clubs; card RK clubs; card R9 spades; card R10 spades;
     card RJ spades; card RQ spades; card RK spades]
    (((λ r, card r hearts) <$> [R10; RJ; RQ; RK]) ++
     ((λ r, card r diamonds) <$> [RA; R2; R3; R4; R5; R6; R7; R8]) ++
     ((λ r, card r clubs) <$> [RA; R2; R3; R4; R5; R6; R7; R8]) ++
     ((λ r, card r spades) <$> [RA; R2; R3; R4; R5; R6; R7; R8]))
    ((λ r, card r hearts) <$> [R8; R7; R6; R5; R4; R3; R2; RA; R9])
    hearts R7 player suit_picking None.

(** A reduced deck: two hands of eight and nothing but 8s after them. *)
Definition reducedDeck : list Card :=
  ((λ r, card r hearts) <$> [RA; R2; R3; R4; R5; R6; R7; R9]) ++
  ((λ r, card r clubs) <$> [RA; R2; R3; R4; R5; R6; R7; R9]) ++
  [card R8 hearts; card R8 spades].

(** ** The active card *)

(** How the top of the discard pile and the current suit and rank
    relate: while a suit is being picked the top card is the player's 8;
    otherwise an 8 on top goes with the current rank 8, and any other
    top card is the current suit and rank itself. *)
Definition activeCard (s : GameState) : Prop :=
  match discardPile s with
  | [] => False
  | top :: _ =>
      match status s with
      | waiting => False
      | suit_picking => rank top = R8 ∧ turn s = player
      | playing | game_over =>
          if bool_decide (rank top = R8) then currentRank s = R8
          else currentSuit s = suit top ∧ currentRank s = rank top
      end
  end.

(** ** Menu *)

(** The "back to main menu" button of the game-over dialog (line 547). *)
Definition backToMenu : list Update :=
  [ SetGameState (λ prev,
      mkGameState (playerHand prev) (aiHand prev) (drawPile prev)
        (discardPile prev) (currentSuit prev) (currentRank prev)
        (turn prev) waiting (winner prev)) ].

(** ** More sample states *)

(** The draw pile is used up and neither side holds a card that fits the
    king of spades. *)
Definition stalemateState : GameState :=
  mkGameState [card R5 diamonds] [card R3 clubs] []
    [card RK spades; card R9 hearts] spades RK player playing None.

(** The player is down to one card, and it fits. *)
Definition lastCardState : GameState :=
  mkGameState [card R7 hearts] [card R3 clubs] [card R4 clubs]
    [card R9 hearts] hearts R9 player playing None.

(** The opponent is down to one card, an 8. *)
Definition aiLastEightState : GameState :=
  mkGameState [card R5 diamonds] [card R8 spades] []
    [card RK diamonds] diamonds RK ai playing None.

(** * Properties *)

(** ** The guard of [playCard] and [drawCard] *)

Lemma guard_active gs :
  turn gs = player → status gs = playing →
  bool_decide (turn gs ≠ player) || bool_decide (status gs ≠ playing) = false.
Proof.
  intros Ht Hs. rewrite !bool_decide_eq_false_2; [done|..]; intros H; by apply H.
Qed.

Lemma guard_idle gs :
  turn gs ≠ player ∨ status gs ≠ playing →
  bool_decide (turn gs ≠ player) || bool_decide (status gs ≠ playing) = true.
Proof.
  intros [H|H]; apply orb_true_iff; [left|right]; by apply bool_decide_eq_true_2.
Qed.

Lemma isLegalPlay_true card cs cr :
  isLegalPlay card cs cr = true ↔ rank card = R8 ∨ suit card = cs ∨ rank card = cr.
Proof.
  unfold isLegalPlay. rewrite !orb_true_iff, !bool_decide_eq_true. tauto.
Qed.

Lemma isPlayable_isLegalPlay gs card :
  isPlayable gs card =
  bool_decide (turn gs = player) && bool_decide (status gs = playing)
  && isLegalPlay card (currentSuit gs) (currentRank gs).
Proof. reflexivity. Qed.

(** ** Rule validator *)

(** C2: the legality test is true exactly when the card is an 8, or its
    suit is the current suit, or its rank is the current rank; an 8 is
    legal whatever the current suit and rank; and the highlight test
    [isPlayable] is the same test behind the turn and phase checks. *)
Theorem legality_predicate (card : Card) (cs : Suit) (cr : Rank) :
  (isLegalPlay card cs cr = true ↔ rank card = R8 ∨ suit card = cs ∨ rank card = cr)
  ∧ isLegalPlay (mkCard (id card) (suit card) R8) cs cr = true
  ∧ ∀ gs, isPlayable gs card =
          bool_decide (turn gs = player) && bool_decide (status gs = playing)
          && isLegalPlay card (currentSuit gs) (currentRank gs).
Proof.
  split; [apply isLegalPlay_true|]. split; [|intros gs; apply isPlayable_isLegalPlay].
  apply isLegalPlay_true. by left.
Qed.

(** ** Rejected actions *)

(** C3: out of turn or out of phase, [playCard] and [drawCard] queue no
    update at all, so the whole component state stays as it was; an
    illegal card in an active turn queues the invalid-play message and
    nothing else, so the game state stays as it was. *)
Theorem rejected_actions_atomic (a : App) (card : Card) :
  (turn (gameState a) ≠ player ∨ status (gameState a) ≠ playing →
     playCard (gameState a) card = [] ∧ drawCard (gameState a) = [] ∧
     commit a (playCard (gameState a) card) = a ∧
     commit a (drawCard (gameState a)) = a)
  ∧ (turn (gameState a) = player → status (gameState a) = playing →
     isLegalPlay card (currentSuit (gameState a)) (currentRank (gameState a)) = false →
     playCard (gameState a) card = [SetMessage MsgInvalidPlay] ∧
     gameState (commit a (playCard (gameState a) card)) = gameState a ∧
     message (commit a (playCard (gameState a) card)) = MsgInvalidPlay ∧
     exec (playCard (gameState a) card) (gameState a) = gameState a ∧
     notifications (playCard (gameState a) card) = [MsgInvalidPlay]).
Proof.
  split.
  - intros Hg. unfold playCard, drawCard. rewrite (guard_idle _ Hg). by destruct a.
  - intros Ht Hs Hl. unfold playCard. rewrite (guard_active _ Ht Hs), Hl. done.
Qed.

(** ** Player draw *)

(** C9: in an active player turn, [drawCard] moves the head of a
    non-empty draw pile to the end of the player's hand and gives the
    turn to the opponent; on an empty draw pile it only gives the turn
    away. *)
Theorem drawCard_spec (gs : GameState) :
  turn gs = player → status gs = playing →
  exec (drawCard gs) gs =
    match drawPile gs with
    | drawn :: remaining =>
        mkGameState (playerHand gs ++ [drawn]) (aiHand gs) remaining
          (discardPile gs) (currentSuit gs) (currentRank gs) ai playing (winner gs)
    | [] =>
        mkGameState (playerHand gs) (aiHand gs) [] (discardPile gs)
          (currentSuit gs) (currentRank gs) ai playing (winner gs)
    end.
Proof.
  intros Ht Hs. unfold drawCard. rewrite (guard_active _ Ht Hs).
  destruct (drawPile gs) as [|d rest] eqn:Hd; simpl; rewrite ?Hs, ?Hd; done.
Qed.

(** ** Suit choice *)

(** C6, as the code has it: [pickSuit] checks no phase; in every state it
    sets the suit, forces the rank to 8, sets the phase to playing and
    gives the turn to the opponent, and leaves hands, piles and winner
    alone.  Only the picker being rendered in the suit-picking phase
    alone keeps it to that phase. *)
Theorem pickSuit_spec (s : GameState) (su : Suit) :
  exec (pickSuit su) s =
    mkGameState (playerHand s) (aiHand s) (drawPile s) (discardPile s)
      su R8 ai playing (winner s)
  ∧ notifications (pickSuit su) = [MsgSuitChanged su]
  ∧ ∀ gs, suitPickerShown gs = true ↔ status gs = suit_picking.
Proof.
  split; [done|]. split; [done|]. intros gs. unfold suitPickerShown.
  apply bool_decide_eq_true.
Qed.

(** C6 as stated fails: at mount the phase is waiting, not suit-picking,
    and [pickSuit] changes the state. *)
Lemma pickSuit_outside_suit_picking :
  status initialGameState ≠ suit_picking ∧
  exec (pickSuit spades) initialGameState ≠ initialGameState ∧
  status (exec (pickSuit spades) initialGameState) = playing ∧
  turn (exec (pickSuit spades) initialGameState) = ai.
Proof. repeat split; discriminate. Qed.

(** ** Opponent turn: the scans and the removal by index *)

Lemma exec_app us1 us2 s : exec (us1 ++ us2) s = exec us2 (exec us1 s).
Proof. unfold exec. apply foldl_app. Qed.

Lemma exec_thinking us b s : exec (us ++ [SetIsAiThinking b]) s = exec us s.
Proof. by rewrite exec_app. Qed.

Lemma filter_index_keep {A} (l : list A) (i t : nat) :
  t < i → filter_index (λ _ j, bool_decide (j ≠ t)) i l = l.
Proof.
  revert i. induction l as [|x l IH]; intros i Hlt; [done|]. simpl.
  rewrite bool_decide_eq_true_2 by lia. f_equal. apply IH. lia.
Qed.

Lemma filter_index_delete_from {A} (l : list A) (i k : nat) :
  filter_index (λ _ j, bool_decide (j ≠ i + k)) i l = delete k l.
Proof.
  revert i k. induction l as [|x l IH]; intros i k; [by destruct k|].
  destruct k as [|k]; simpl.
  - rewrite bool_decide_eq_false_2 by lia. apply filter_index_keep. lia.
  - rewrite bool_decide_eq_true_2 by lia. f_equal.
    replace (i + S k) with (S i + k) by lia. apply IH.
Qed.

Lemma filter_index_delete {A} (l : list A) (k : nat) :
  filter_index (λ _ j, bool_decide (j ≠ k)) 0 l = delete k l.
Proof. apply (filter_index_delete_from l 0 k). Qed.

Lemma list_find_split {A} (P : A → Prop) `{!∀ x, Decision (P x)} (l : list A) i x :
  list_find P l = Some (i, x) →
  ∃ before after,
    l = before ++ x :: after ∧ Forall (λ y, ¬ P y) before ∧ P x ∧
    delete i l = before ++ after ∧ length before = i.
Proof.
  intros (Hi & HP & Hleast)%list_find_Some.
  exists (take i l), (drop (S i) l). split_and!.
  - by rewrite take_drop_middle.
  - apply Forall_lookup. intros j y Hj.
    apply lookup_take_Some in Hj as [Hj Hlt]. by apply (Hleast j).
  - done.
  - apply delete_take_drop.
  - apply length_take_le. apply lookup_lt_Some in Hi. lia.
Qed.

Lemma list_find_none_Forall {A} (P : A → Prop) `{!∀ x, Decision (P x)} (l : list A) :
  list_find P l = None ↔ Forall (λ y, ¬ P y) l.
Proof. apply list_find_None. Qed.

(** ** Opponent turn: the suit of a wild 8 *)

Lemma countSuits_from (hand : list Card) (f : Suit → nat) (s : Suit) :
  foldl (λ suitCounts c, increment suitCounts (suit c)) f hand s
  = f s + suitCount hand s.
Proof.
  revert f. induction hand as [|c hand IH]; intros f; simpl.
  - unfold suitCount. simpl. lia.
  - rewrite IH. unfold increment, suitCount. rewrite filter_cons.
    destruct (decide (s = suit c)) as [->|Hne].
    + rewrite decide_True by done. simpl. lia.
    + rewrite decide_False by (intros Heq; by apply Hne). lia.
Qed.

Lemma countSuits_suitCount hand s : countSuits hand s = suitCount hand s.
Proof. unfold countSuits. by rewrite countSuits_from. Qed.

Lemma pickBestSuit_last_max (n : Suit → nat) :
  (∀ s, n s ≤ n (pickBestSuit n)) ∧
  (∀ s, suitIndex (pickBestSuit n) < suitIndex s → n s < n (pickBestSuit n)).
Proof.
  unfold pickBestSuit. simpl.
  repeat case_bool_decide; split; intros []; simpl; lia.
Qed.

(** ** Opponent turn: the four branches *)

(** Permutations between re-bracketed concatenations in which single
    cards sit at different places. *)
Ltac move_to_front :=
  rewrite <-?app_assoc; simpl; rewrite <-?Permutation_middle;
  rewrite <-?app_assoc; simpl; try done.

Lemma handleAiTurn_branch (s : GameState) :
  ∃ b, ai_branch s (exec (handleAiTurn s) s) b.
Proof.
  unfold handleAiTurn. rewrite exec_thinking.
  destruct (list_find (matches _ _) (aiHand s)) as [[i card]|] eqn:Hm.
  - apply list_find_split in Hm as (before & after & Hl & Hb & Hc & Hdel & _).
    exists Match. eapply branch_match; [exact Hl|exact Hb|exact Hc|].
    simpl. by rewrite filter_index_delete, Hdel.
  - apply list_find_none_Forall in Hm.
    destruct (list_find isEight (aiHand s)) as [[i card]|] eqn:He.
    + apply list_find_split in He as (before & after & Hl & Hb & Hc & Hdel & _).
      exists Wild. eapply branch_wild; [exact Hm|exact Hl|exact Hb|exact Hc|].
      simpl. by rewrite filter_index_delete, Hdel.
    + apply list_find_none_Forall in He.
      destruct (drawPile s) as [|d rest] eqn:Hd.
      * exists Pass. apply branch_pass; [done..|]. simpl. by rewrite Hd.
      * exists Draw. by eapply branch_draw.
Qed.

Lemma Forall_not_middle (P : Card → Prop) l before (card : Card) after :
  P card → Forall (λ c, ¬ P c) l → l = before ++ card :: after → False.
Proof.
  intros HP HF ->. apply Forall_app in HF as [_ HF]. by inversion HF.
Qed.

Lemma ai_branch_unique s s1 s2 b1 b2 :
  ai_branch s s1 b1 → ai_branch s s2 b2 → b1 = b2.
Proof.
  intros H1 H2.
  destruct H1 as [b1' c1 a1 Hl1 _ Hc1 _|b1' c1 a1 Hn1 Hl1 _ Hc1 _
                 |d1 r1 Hn1 He1 Hd1 _|Hn1 He1 Hd1 _];
  destruct H2 as [b2' c2 a2 Hl2 _ Hc2 _|b2' c2 a2 Hn2 Hl2 _ Hc2 _
                 |d2 r2 Hn2 He2 Hd2 _|Hn2 He2 Hd2 _];
  try done; exfalso;
  first
    [ by eapply (Forall_not_middle (matches (currentSuit s) (currentRank s)));
        [eassumption|eassumption|eassumption]
    | by eapply (Forall_not_middle (λ c, rank c = R8));
        [eassumption|eassumption|eassumption]
    | congruence ].
Qed.

Lemma handleAiTurn_zones (s : GameState) :
  zones (exec (handleAiTurn s) s) ≡ₚ zones s.
Proof.
  destruct (handleAiTurn_branch s) as [b Hb]. unfold zones.
  destruct Hb as [before card after Hl _ _ ->|before card after _ Hl _ _ ->
                 |d rest _ _ Hd ->|_ _ Hd ->]; simpl; rewrite ?Hl, ?Hd;
    move_to_front.
Qed.

(** C7: the opponent turn takes exactly one of the four branches, in the
    priority order match, wild, draw, pass: the first non-8 card in hand
    order that matches the current suit or rank is played and sets suit
    and rank; else the first 8; else the head of a non-empty draw pile
    is appended to the hand; else nothing moves.  At most one card
    changes zone, none is created, and the turn goes to the player. *)
Theorem opponent_policy (s : GameState) :
  (∃ b, ai_branch s (exec (handleAiTurn s) s) b ∧
        ∀ b', ai_branch s (exec (handleAiTurn s) s) b' → b' = b)
  ∧ turn (exec (handleAiTurn s) s) = player
  ∧ status (exec (handleAiTurn s) s) = status s
  ∧ playerHand (exec (handleAiTurn s) s) = playerHand s
  ∧ zones (exec (handleAiTurn s) s) ≡ₚ zones s
  ∧ length (aiHand (exec (handleAiTurn s) s)) ≤ length (aiHand s) + 1
  ∧ length (aiHand s) ≤ length (aiHand (exec (handleAiTurn s) s)) + 1
  ∧ length (discardPile s) ≤ length (discardPile (exec (handleAiTurn s) s))
  ∧ length (discardPile (exec (handleAiTurn s) s)) ≤ length (discardPile s) + 1
  ∧ length (drawPile (exec (handleAiTurn s) s)) ≤ length (drawPile s)
  ∧ length (drawPile s) ≤ length (drawPile (exec (handleAiTurn s) s)) + 1
  ∧ length (discardPile (exec (handleAiTurn s) s))
    + length (drawPile s)
    ≤ length (discardPile s) + length (drawPile (exec (handleAiTurn s) s)) + 1.
Proof.
  destruct (handleAiTurn_branch s) as [b Hb]. split.
  { exists b. split; [done|]. intros b' Hb'. by eapply ai_branch_unique. }
  pose proof (handleAiTurn_zones s) as Hz.
  set (s' := exec (handleAiTurn s) s) in *. clearbody s'.
  destruct Hb as [before card after Hl _ _ ->|before card after _ Hl _ _ ->
                 |d rest _ _ Hd ->|_ _ Hd ->];
    unfold zones in Hz |- *; simpl in Hz |- *;
    rewrite ?Hl, ?Hd in Hz |- *; rewrite ?length_app; simpl;
    split_and!; try done; lia.
Qed.

(** ** Opponent turn: wild 8 *)

Lemma handleAiTurn_wild (s : GameState) :
  Forall (λ c, ¬ matches (currentSuit s) (currentRank s) c) (aiHand s) →
  Exists isEight (aiHand s) →
  ∃ before eight after,
    aiHand s = before ++ eight :: after ∧
    Forall (λ c, rank c ≠ R8) before ∧ rank eight = R8 ∧
    exec (handleAiTurn s) s =
      mkGameState (playerHand s) (before ++ after) (drawPile s)
        (eight :: discardPile s) (bestSuit (before ++ after)) R8
        player (status s) (winner s).
Proof.
  intros Hn He. destruct (handleAiTurn_branch s) as [b Hb].
  destruct Hb as [before c after Hl Hb Hc Hs'|before c after Hn' Hl Hb Hc Hs'
                 |d rest Hn' He' Hd Hs'|Hn' He' Hd Hs'].
  - exfalso. exact (Forall_not_middle _ _ _ _ _ Hc Hn Hl).
  - by exists before, c, after.
  - exfalso. apply Exists_exists in He as (c & Hin & Hc).
    by eapply (proj1 (Forall_forall _ _) He' c).
  - exfalso. apply Exists_exists in He as (c & Hin & Hc).
    by eapply (proj1 (Forall_forall _ _) He' c).
Qed.

(** C8, as the code has it: when the opponent plays an 8 (nothing in its
    hand matches and it holds an 8), the new suit is computed from the
    hand that remains after the 8 is removed; no suit has more cards
    there than the chosen one, and every suit later in the order hearts,
    diamonds, clubs, spades has strictly fewer: on a tie the last suit
    reaching the maximum wins. *)
Theorem opponent_wild_suit (s : GameState) :
  Forall (λ c, ¬ matches (currentSuit s) (currentRank s) c) (aiHand s) →
  Exists isEight (aiHand s) →
  (∃ eight, rank eight = R8 ∧
      aiHand s ≡ₚ eight :: aiHand (exec (handleAiTurn s) s) ∧
      discardPile (exec (handleAiTurn s) s) = eight :: discardPile s)
  ∧ currentSuit (exec (handleAiTurn s) s) = bestSuit (aiHand (exec (handleAiTurn s) s))
  ∧ (∀ su, suitCount (aiHand (exec (handleAiTurn s) s)) su
           ≤ suitCount (aiHand (exec (handleAiTurn s) s))
               (currentSuit (exec (handleAiTurn s) s)))
  ∧ (∀ su, suitIndex (currentSuit (exec (handleAiTurn s) s)) < suitIndex su →
           suitCount (aiHand (exec (handleAiTurn s) s)) su
           < suitCount (aiHand (exec (handleAiTurn s) s))
               (currentSuit (exec (handleAiTurn s) s))).
Proof.
  intros Hn He.
  destruct (handleAiTurn_wild s Hn He) as (before & eight & after & Hl & _ & Hr & ->).
  simpl. split_and!.
  - exists eight. split_and!; [done| |done]. rewrite Hl. by rewrite Permutation_middle.
  - done.
  - intros su. unfold bestSuit. rewrite <-!countSuits_suitCount.
    apply pickBestSuit_last_max.
  - intros su. unfold bestSuit. rewrite <-!countSuits_suitCount.
    apply pickBestSuit_last_max.
Qed.

Lemma opponent_wild_suit_witness :
  Forall (λ c, ¬ matches hearts R2 c) (aiHand twoClubsState) ∧
  Exists isEight (aiHand twoClubsState) ∧
  currentSuit (exec (handleAiTurn twoClubsState) twoClubsState) = clubs ∧
  currentRank (exec (handleAiTurn twoClubsState) twoClubsState) = R8 ∧
  ∀ su, suitCount (aiHand (exec (handleAiTurn twoClubsState) twoClubsState)) su
        ≤ suitCount (aiHand (exec (handleAiTurn twoClubsState) twoClubsState))
            (currentSuit (exec (handleAiTurn twoClubsState) twoClubsState)).
Proof.
  assert (Hn : Forall (λ c, ¬ matches hearts R2 c) (aiHand twoClubsState)).
  { vm_compute. repeat constructor; intros [H1 [H2|H2]]; discriminate. }
  assert (He : Exists isEight (aiHand twoClubsState)).
  { vm_compute. by constructor. }
  split; [exact Hn|]. split; [exact He|].
  split; [reflexivity|]. split; [reflexivity|].
  exact (proj1 (proj2 (proj2 (opponent_wild_suit twoClubsState Hn He)))).
Defined.

(** C8 as stated fails: with one heart and one club left the code picks
    clubs, the later of the two tied suits, where the first suit
    reaching the maximum is hearts. *)
Lemma opponent_wild_suit_tie_is_last :
  aiHand (exec (handleAiTurn tiedSuitsState) tiedSuitsState)
    = [card R3 hearts; card R9 clubs] ∧
  discardPile (exec (handleAiTurn tiedSuitsState) tiedSuitsState)
    = [card R8 spades; card RK diamonds] ∧
  suitCount [card R3 hearts; card R9 clubs] hearts = 1 ∧
  suitCount [card R3 hearts; card R9 clubs] clubs = 1 ∧
  firstMaxSuit [card R3 hearts; card R9 clubs] = hearts ∧
  currentSuit (exec (handleAiTurn tiedSuitsState) tiedSuitsState) = clubs ∧
  currentSuit (exec (handleAiTurn tiedSuitsState) tiedSuitsState)
    ≠ firstMaxSuit (aiHand (exec (handleAiTurn tiedSuitsState) tiedSuitsState)).
Proof. vm_compute. repeat split; discriminate. Qed.

(** ** Wild 8: player and opponent *)

Lemma filter_id_absent (hand : list Card) (i : string) :
  i ∉ id <$> hand → filter (λ x, id x ≠ i) hand = hand.
Proof.
  induction hand as [|x hand IH]; intros Hni; [done|].
  rewrite fmap_cons in Hni. apply not_elem_of_cons in Hni as [Hne Hni].
  rewrite filter_cons_True by (intros H; by apply Hne). f_equal. by apply IH.
Qed.

Lemma filter_id_remove (hand : list Card) (c : Card) :
  NoDup (id <$> hand) → c ∈ hand →
  hand ≡ₚ c :: filter (λ x, id x ≠ id c) hand.
Proof.
  induction hand as [|x hand IH]; intros Hnd Hin; [by apply elem_of_nil in Hin|].
  rewrite fmap_cons in Hnd. apply NoDup_cons in Hnd as [Hx Hnd].
  apply elem_of_cons in Hin as [->|Hin].
  - rewrite filter_cons_False by (intros H; by apply H).
    by rewrite filter_id_absent.
  - assert (id x ≠ id c) as Hne.
    { intros Heq. apply Hx. rewrite Heq. by apply list_elem_of_fmap_2. }
    rewrite filter_cons_True by done.
    rewrite (IH Hnd Hin) at 1. apply Permutation_swap.
Qed.

(** C5: in an active player turn, playing an 8 takes it out of the hand
    (by id), puts it on top of the discard pile and opens the
    suit-picking phase with the current suit, the current rank and the
    turn as they were; the rank becomes 8 only when a suit is picked.
    The opponent's own 8 sets the rank to 8 in the very update that sets
    the new suit. *)
Theorem wild_eight_asymmetry (gs : GameState) (c : Card) :
  turn gs = player → status gs = playing → rank c = R8 →
  exec (playCard gs c) gs =
    mkGameState (filter (λ x, id x ≠ id c) (playerHand gs)) (aiHand gs)
      (drawPile gs) (c :: discardPile gs) (currentSuit gs) (currentRank gs)
      player suit_picking (winner gs)
  ∧ (NoDup (id <$> playerHand gs) → c ∈ playerHand gs →
     playerHand gs ≡ₚ c :: playerHand (exec (playCard gs c) gs))
  ∧ (∀ su, currentRank (exec (pickSuit su) (exec (playCard gs c) gs)) = R8 ∧
           currentSuit (exec (pickSuit su) (exec (playCard gs c) gs)) = su)
  ∧ (∀ g, Forall (λ x, ¬ matches (currentSuit g) (currentRank g) x) (aiHand g) →
          Exists isEight (aiHand g) →
          currentRank (exec (handleAiTurn g) g) = R8 ∧
          currentSuit (exec (handleAiTurn g) g)
            = bestSuit (aiHand (exec (handleAiTurn g) g)) ∧
          status (exec (handleAiTurn g) g) = status g ∧
          turn (exec (handleAiTurn g) g) = player).
Proof.
  intros Ht Hs Hr.
  assert (exec (playCard gs c) gs =
    mkGameState (filter (λ x, id x ≠ id c) (playerHand gs)) (aiHand gs)
      (drawPile gs) (c :: discardPile gs) (currentSuit gs) (currentRank gs)
      player suit_picking (winner gs)) as Hplay.
  { unfold playCard. rewrite (guard_active _ Ht Hs).
    rewrite (proj2 (isLegalPlay_true c _ _)) by (by left). simpl.
    rewrite bool_decide_eq_true_2 by done. simpl. by rewrite Ht. }
  split; [exact Hplay|]. rewrite Hplay. simpl. split_and!.
  - intros Hnd Hin. by apply filter_id_remove.
  - done.
  - intros g Hn He.
    destruct (handleAiTurn_wild g Hn He) as (before & eight & after & _ & _ & _ & ->).
    done.
Qed.

Lemma wild_eight_asymmetry_witness :
  turn playerEightState = player ∧ status playerEightState = playing ∧
  rank (card R8 hearts) = R8 ∧
  exec (playCard playerEightState (card R8 hearts)) playerEightState =
    mkGameState [card R5 diamonds] [card R3 clubs; card R9 clubs]
      [card R4 clubs; card R6 spades] [card R8 hearts; card RK spades]
      spades RK player suit_picking None.
Proof.
  split; [reflexivity|]. split; [reflexivity|]. split; [reflexivity|].
  exact (proj1 (wild_eight_asymmetry playerEightState (card R8 hearts)
                  eq_refl eq_refl eq_refl)).
Defined.

(** ** The deal *)

Lemma scanStartingCard_spec (rest : list Card) (k : nat) :
  match scanStartingCard rest k with
  | Returned i =>
      ∃ j first, i = k + j ∧ rest !! j = Some first ∧ rank first ≠ R8 ∧
                 Forall isEight (take j rest)
  | TypeError => Forall isEight rest
  end.
Proof.
  revert k. induction rest as [|c rest IH]; intros k; simpl; [done|].
  case_bool_decide as Hc.
  - specialize (IH (S k)). destruct (scanStartingCard rest (S k)) as [i|].
    + destruct IH as (j & first & -> & Hj & Hf & Hall).
      exists (S j), first. split_and!; [lia|done|done|]. by constructor.
    + by constructor.
  - exists 0, c. split_and!; [lia|done|done|]. simpl. constructor.
Qed.

Lemma filter_all_eights (l : list Card) :
  Forall isEight l → filter isEight l = l.
Proof.
  induction 1 as [|x l' Hx _ IH]; [done|].
  rewrite filter_cons_True by done. by f_equal.
Qed.

Lemma eights_prefix_le (l : list Card) (j : nat) :
  j ≤ length l → Forall isEight (take j l) → j ≤ length (filter isEight l).
Proof.
  intros Hj Hall. rewrite <-(take_drop j l) at 1.
  rewrite filter_app, length_app.
  rewrite (filter_all_eights _ Hall), length_take. lia.
Qed.

Lemma shuffled_length (shuffled : list Card) :
  shuffled ≡ₚ createDeck → length shuffled = 52.
Proof. intros ->. reflexivity. Qed.

Lemma shuffled_eights (shuffled : list Card) :
  shuffled ≡ₚ createDeck → length (filter isEight shuffled) = 4.
Proof. intros ->. reflexivity. Qed.

Lemma remainder_drop (shuffled : list Card) : remainder shuffled = drop 16 shuffled.
Proof. unfold remainder, INITIAL_HAND_SIZE. by rewrite drop_drop. Qed.

Lemma remainder_eights (shuffled : list Card) :
  length (filter isEight (remainder shuffled)) ≤ length (filter isEight shuffled).
Proof.
  rewrite remainder_drop. rewrite <-(take_drop 16 shuffled) at 2.
  rewrite filter_app, length_app. lia.
Qed.

Lemma deal_returns (shuffled : list Card) (i : nat) (first : Card) :
  scanStartingCard (remainder shuffled) 0 = Returned i →
  remainder shuffled !! i = Some first →
  deal shuffled =
    Some (mkGameState (take 8 shuffled) (take 8 (drop 8 shuffled))
            (delete i (remainder shuffled)) [first]
            (suit first) (rank first) player playing None).
Proof.
  intros Hscan Hi. unfold deal, initGame. fold (remainder shuffled).
  by rewrite Hscan, Hi.
Qed.

Lemma deal_full_deck (shuffled : list Card) :
  shuffled ≡ₚ createDeck →
  ∃ i first,
    scanStartingCard (remainder shuffled) 0 = Returned i ∧
    i ≤ 4 ∧ length (remainder shuffled) = 36 ∧
    remainder shuffled !! i = Some first ∧ rank first ≠ R8 ∧
    Forall isEight (take i (remainder shuffled)) ∧
    deal shuffled =
      Some (mkGameState (take 8 shuffled) (take 8 (drop 8 shuffled))
              (delete i (remainder shuffled)) [first]
              (suit first) (rank first) player playing None).
Proof.
  intros Hp.
  pose proof (shuffled_length _ Hp) as Hlen.
  pose proof (shuffled_eights _ Hp) as H8.
  pose proof (remainder_eights shuffled) as Hr8.
  assert (length (remainder shuffled) = 36) as Hrl.
  { rewrite remainder_drop, length_drop. lia. }
  pose proof (scanStartingCard_spec (remainder shuffled) 0) as Hscan.
  destruct (scanStartingCard (remainder shuffled) 0) as [i|] eqn:Hs.
  - destruct Hscan as (j & first & -> & Hj & Hf & Hall). simpl in *.
    exists j, first. split_and!; try done.
    + pose proof (lookup_lt_Some _ _ _ Hj) as Hlt.
      pose proof (eights_prefix_le (remainder shuffled) j (Nat.lt_le_incl _ _ Hlt) Hall).
      lia.
    + by apply deal_returns.
  - exfalso.
    rewrite (filter_all_eights _ Hscan) in Hr8. lia.
Qed.

Lemma scanStartingCard_all_eights (rest : list Card) (k : nat) :
  Forall isEight rest → scanStartingCard rest k = TypeError.
Proof.
  intros Hall. revert k. induction Hall as [|x l' Hx _ IH]; intros k; [done|].
  simpl. rewrite bool_decide_eq_true_2 by done. apply IH.
Qed.

Lemma deal_all_eights (shuffled : list Card) :
  Forall isEight (remainder shuffled) →
  initGame shuffled = TypeError ∧ deal shuffled = None.
Proof.
  intros Hall.
  pose proof (scanStartingCard_all_eights _ 0 Hall) as Hscan.
  unfold deal, initGame. fold (remainder shuffled). by rewrite Hscan.
Qed.

(** C10: on a shuffled full deck the scan for the starting card stops at
    an index inside the 36 cards left after the two hands (at most four
    8s precede it), so it never reads past the end, and the deal returns
    a state; when the cards left hold no non-8 card the scan runs off
    the end, reading [.rank] of [undefined] throws, and [initGame] sets
    no state. *)
Theorem deal_scan_safety (shuffled : list Card) :
  (shuffled ≡ₚ createDeck →
     ∃ i first,
       scanStartingCard (remainder shuffled) 0 = Returned i ∧
       i ≤ 4 ∧ length (remainder shuffled) = 36 ∧
       remainder shuffled !! i = Some first ∧ rank first ≠ R8 ∧
       Forall isEight (take i (remainder shuffled)) ∧
       deal shuffled =
         Some (mkGameState (take 8 shuffled) (take 8 (drop 8 shuffled))
                 (delete i (remainder shuffled)) [first]
                 (suit first) (rank first) player playing None))
  ∧ (Forall isEight (remainder shuffled) →
     scanStartingCard (remainder shuffled) 0 = TypeError ∧
     initGame shuffled = TypeError ∧ deal shuffled = None).
Proof.
  split; [apply deal_full_deck|]. intros Hall.
  destruct (deal_all_eights shuffled Hall) as [Hi Hd]. split_and!; [|done..].
  pose proof (scanStartingCard_spec (remainder shuffled) 0) as Hscan.
  destruct (scanStartingCard (remainder shuffled) 0) as [i|]; [|done].
  destruct Hscan as (j & first & _ & Hj & Hf & _). exfalso.
  apply Hf. by apply (proj1 (Forall_lookup _ _) Hall j first).
Qed.

(** ** Conservation of the cards *)

Lemma exec_checkWin_zones (s : GameState) : zones (exec (checkWin s) s) = zones s.
Proof. unfold checkWin. repeat case_bool_decide; done. Qed.

Lemma playCard_zones (s : GameState) (c : Card) :
  NoDup (id <$> zones s) → c ∈ playerHand s →
  zones (exec (playCard s c) s) ≡ₚ zones s.
Proof.
  intros Hnd Hin.
  assert (playerHand s ≡ₚ c :: filter (λ x, id x ≠ id c) (playerHand s)) as Hp.
  { apply filter_id_remove; [|done]. unfold zones in Hnd.
    rewrite fmap_app in Hnd. by apply NoDup_app in Hnd as [? _]. }
  unfold playCard. destruct (_ || _); [done|].
  destruct (negb _); [done|].
  destruct (bool_decide (rank c = R8)); unfold zones; simpl;
    rewrite Hp at 2; move_to_front.
Qed.

Lemma drawCard_zones (s : GameState) : zones (exec (drawCard s) s) ≡ₚ zones s.
Proof.
  unfold drawCard. destruct (_ || _); [done|]. unfold zones.
  destruct (drawPile s) as [|d rest] eqn:Hd; simpl; rewrite ?Hd; move_to_front.
Qed.

Lemma op_step_zones (s s' : GameState) :
  NoDup (id <$> zones s) → op_step s s' → zones s' ≡ₚ zones s.
Proof.
  intros Hnd Hstep. destruct Hstep as [s c Hin|s|s su|s|s].
  - by apply playCard_zones.
  - apply drawCard_zones.
  - done.
  - apply handleAiTurn_zones.
  - by rewrite exec_checkWin_zones.
Qed.

Lemma reachable_zones (s0 s : GameState) :
  NoDup (id <$> zones s0) → rtc op_step s0 s → zones s ≡ₚ zones s0.
Proof.
  intros Hnd Hr. induction Hr as [s|s1 s2 s3 Hstep _ IH]; [done|].
  pose proof (op_step_zones _ _ Hnd Hstep) as Hz.
  rewrite <-Hz. apply IH. by rewrite Hz.
Qed.

Lemma deal_zones (shuffled : list Card) (s0 : GameState) :
  deal shuffled = Some s0 → zones s0 ≡ₚ shuffled.
Proof.
  unfold deal, initGame. fold (remainder shuffled).
  destruct (scanStartingCard (remainder shuffled) 0) as [i|]; [|done].
  destruct (remainder shuffled !! i) as [first|] eqn:Hi; [|done].
  intros [= <-]. unfold zones. simpl.
  rewrite <-(Permutation_middle _ [] first), app_nil_r.
  rewrite <-(delete_Permutation _ _ _ Hi). unfold remainder, INITIAL_HAND_SIZE.
  by rewrite !take_drop.
Qed.

Lemma createDeck_ids : NoDup (id <$> createDeck).
Proof. by apply (bool_decide_unpack _). Qed.

(** C1: a deal of a shuffled full deck succeeds, and in every state
    reached from it by [playCard] (on a card of the hand), [drawCard],
    [pickSuit], the opponent turn and the win check, in any order, the
    four zones together hold exactly the cards dealt: the 52 ids of the
    deck, each once. *)
Theorem card_conservation (shuffled : list Card) :
  shuffled ≡ₚ createDeck →
  ∃ s0, deal shuffled = Some s0 ∧
    ∀ s, rtc op_step s0 s →
      zones s ≡ₚ shuffled ∧
      id <$> zones s ≡ₚ id <$> createDeck ∧
      NoDup (id <$> zones s) ∧
      length (zones s) = 52.
Proof.
  intros Hp. destruct (deal_full_deck shuffled Hp) as (i & first & _ & _ & _ & _ & _ & _ & Hd).
  eexists. split; [exact Hd|]. intros s Hr.
  pose proof (deal_zones _ _ Hd) as H0.
  assert (zones s ≡ₚ createDeck) as Hz.
  { rewrite <-Hp, <-H0. apply reachable_zones; [|done].
    rewrite H0, Hp. apply createDeck_ids. }
  split_and!.
  - by rewrite Hz.
  - by rewrite Hz.
  - rewrite Hz. apply createDeck_ids.
  - by rewrite Hz.
Qed.

(** ** Termination and winner *)

Lemma settled_committed (s : GameState) : settled s → committed s.
Proof. unfold settled, committed. destruct (status s); intuition congruence. Qed.

Lemma settle_settled (s : GameState) : committed s → settled (settle s).
Proof.
  destruct s as [ph ah dp di cs cr t st w]. unfold committed, settled, settle, checkWin.
  simpl. destruct st; simpl; try done.
  destruct ph as [|p ph], ah as [|a ah]; simpl; intuition congruence.
Qed.

Lemma settle_fixed (s : GameState) : settled s → settle s = s.
Proof.
  destruct s as [ph ah dp di cs cr t st w]. unfold settled, settle, checkWin.
  simpl. destruct st; simpl; try done.
  destruct ph as [|p ph], ah as [|a ah]; simpl; intuition congruence.
Qed.

Lemma playCard_committed (s : GameState) (c : Card) :
  settled s → committed (exec (playCard s c) s).
Proof.
  intros Hs. unfold playCard.
  destruct (_ || _) eqn:Hg; [by apply settled_committed|].
  apply orb_false_iff in Hg as [_ Hst%bool_decide_eq_false].
  assert (status s = playing) as Hp by (by apply dec_stable).
  destruct (negb _); [by apply settled_committed|].
  unfold settled in Hs. rewrite Hp in Hs. destruct Hs as (_ & Ha & Hw).
  destruct (bool_decide (rank c = R8)); unfold committed; simpl; rewrite ?Hp; auto.
Qed.

Lemma drawCard_committed (s : GameState) :
  settled s → committed (exec (drawCard s) s).
Proof.
  intros Hs. unfold drawCard.
  destruct (_ || _) eqn:Hg; [by apply settled_committed|].
  apply orb_false_iff in Hg as [_ Hst%bool_decide_eq_false].
  assert (status s = playing) as Hp by (by apply dec_stable).
  unfold settled in Hs. rewrite Hp in Hs. destruct Hs as (_ & Ha & Hw).
  destruct (drawPile s); unfold committed; simpl; rewrite ?Hp; auto.
Qed.

Lemma pickSuit_committed (s : GameState) (su : Suit) :
  settled s → status s = suit_picking → committed (exec (pickSuit su) s).
Proof.
  intros Hs Hp. unfold settled in Hs. rewrite Hp in Hs. destruct Hs as [Ha Hw].
  unfold committed. simpl. auto.
Qed.

Lemma handleAiTurn_frame (s : GameState) :
  status (exec (handleAiTurn s) s) = status s ∧
  playerHand (exec (handleAiTurn s) s) = playerHand s ∧
  winner (exec (handleAiTurn s) s) = winner s ∧
  turn (exec (handleAiTurn s) s) = player.
Proof.
  destruct (handleAiTurn_branch s) as [b Hb].
  by destruct Hb as [? ? ? _ _ _ ->|? ? ? _ _ _ _ ->|? ? _ _ _ ->|_ _ _ ->].
Qed.

Lemma handleAiTurn_committed (s : GameState) :
  settled s → status s = playing → committed (exec (handleAiTurn s) s).
Proof.
  intros Hs Hp. unfold settled in Hs. rewrite Hp in Hs. destruct Hs as (Hh & _ & Hw).
  destruct (handleAiTurn_frame s) as (Hst & Hph & Hwi & _).
  unfold committed. rewrite Hst, Hp, Hph, Hwi. auto.
Qed.

Lemma ui_step_settled (s s' : GameState) : settled s → ui_step s s' → settled s'.
Proof.
  intros Hs Hstep. destruct Hstep as [s c _|s|s su Hg|s Hg]; apply settle_settled.
  - by apply playCard_committed.
  - by apply drawCard_committed.
  - apply pickSuit_committed; [done|]. by apply bool_decide_eq_true in Hg.
  - apply handleAiTurn_committed; [done|].
    apply andb_true_iff in Hg as [Hg _]. by apply bool_decide_eq_true in Hg.
Qed.

Lemma reachable_settled (s0 s : GameState) :
  settled s0 → rtc ui_step s0 s → settled s.
Proof. intros H0 Hr. induction Hr; eauto using ui_step_settled. Qed.

Lemma deal_settled (shuffled : list Card) (s0 : GameState) :
  shuffled ≡ₚ createDeck → deal shuffled = Some s0 → settled s0.
Proof.
  intros Hp Hd. pose proof (shuffled_length _ Hp) as Hlen.
  destruct (deal_full_deck shuffled Hp) as (i & first & _ & _ & _ & _ & _ & _ & Hd').
  rewrite Hd in Hd'. injection Hd' as ->. unfold settled. simpl. split_and!; [| |done].
  - intros H%(f_equal length). rewrite length_take, Hlen in H. simpl in H. lia.
  - intros H%(f_equal length). rewrite length_take, length_drop, Hlen in H.
    simpl in H. lia.
Qed.

Lemma enabled_ui_step (s : GameState) (ev : Event) :
  enabled s ev = true → ui_step s (settle (exec (handler s ev) s)).
Proof.
  destruct ev as [c| |su|]; simpl; intros He.
  - apply ui_playCard. by apply bool_decide_eq_true in He.
  - apply ui_drawCard.
  - by apply ui_pickSuit.
  - by apply ui_handleAiTurn.
Qed.

Lemma run_reachable (evs : list Event) (s s' : GameState) :
  run evs s = Some s' → rtc ui_step s s'.
Proof.
  revert s. induction evs as [|ev evs IH]; intros s; simpl.
  - intros [= ->]. apply rtc_refl.
  - destruct (enabled s ev) eqn:He; [|done]. intros Hr.
    eapply rtc_l; [by apply enabled_ui_step|by apply IH].
Qed.

(** C4, as the code has it: the win check acts only in the playing
    phase.  In every state the wired component reaches from a deal of
    the full deck, the game is over exactly when a hand is empty and no
    suit is being picked, and the winner is then the side whose hand is
    empty; an empty hand in the suit-picking phase (the player's last
    card was an 8) ends the game only once a suit is picked, with the
    player as winner. *)
Theorem termination_and_winner (shuffled : list Card) :
  shuffled ≡ₚ createDeck →
  ∃ s0, deal shuffled = Some s0 ∧ settle s0 = s0 ∧
    ∀ s, rtc ui_step s0 s →
      (status s = game_over ↔
         (playerHand s = [] ∨ aiHand s = []) ∧ status s ≠ suit_picking)
      ∧ (winner s = Some player ↔ status s = game_over ∧ playerHand s = [])
      ∧ (winner s = Some ai ↔ status s = game_over ∧ aiHand s = [])
      ∧ (status s = suit_picking → aiHand s ≠ [])
      ∧ (status s = suit_picking → playerHand s = [] →
         ∀ su, status (settle (exec (pickSuit su) s)) = game_over ∧
               winner (settle (exec (pickSuit su) s)) = Some player)
      ∧ settle s = s.
Proof.
  intros Hp.
  destruct (deal_full_deck shuffled Hp) as (i & first & _ & _ & _ & _ & _ & _ & Hd).
  eexists. split; [exact Hd|].
  pose proof (deal_settled _ _ Hp Hd) as H0.
  split; [by apply settle_fixed|]. intros s Hr.
  pose proof (reachable_settled _ _ H0 Hr) as Hs.
  split_and!; [| | | | |by apply settle_fixed].
  - unfold settled in Hs. destruct (status s); intuition congruence.
  - unfold settled in Hs. destruct (status s); intuition congruence.
  - unfold settled in Hs. destruct (status s); intuition congruence.
  - unfold settled in Hs. intros Hst. rewrite Hst in Hs. intuition congruence.
  - intros Hst Hph su. unfold settled in Hs. rewrite Hst in Hs.
    destruct Hs as [Ha Hw]. unfold settle, checkWin. simpl.
    rewrite Hph. simpl. done.
Qed.

(** C4 as stated fails: from a deal of the full deck the player sheds
    seven hearts and then the 8 of hearts; the hand is empty, yet the
    game is in the suit-picking phase, not over, and has no winner. *)
Lemma empty_hand_not_game_over :
  riggedDeck ≡ₚ createDeck ∧
  (∃ s0, deal riggedDeck = Some s0 ∧ rtc ui_step s0 lastEightState) ∧
  playerHand lastEightState = [] ∧
  status lastEightState = suit_picking ∧
  status lastEightState ≠ game_over ∧
  winner lastEightState = None ∧
  exec (checkWin lastEightState) lastEightState = lastEightState.
Proof.
  split; [by apply (bool_decide_unpack _)|]. split; [|by repeat split].
  destruct (deal riggedDeck) as [s0|] eqn:Hd; [|by vm_compute in Hd].
  exists s0. split; [done|]. apply (run_reachable lastEightScript).
  injection Hd as <-. by vm_compute.
Qed.

(** ** The wired component stays within the operations *)

Lemma ui_step_op_steps (s s' : GameState) : ui_step s s' → rtc op_step s s'.
Proof.
  intros Hstep. destruct Hstep as [s c Hin|s|s su _|s _]; unfold settle;
    (eapply rtc_l; [|apply rtc_once, op_checkWin]).
  - by apply op_playCard.
  - apply op_drawCard.
  - apply op_pickSuit.
  - apply op_handleAiTurn.
Qed.

Lemma ui_reachable_op_reachable (s s' : GameState) :
  rtc ui_step s s' → rtc op_step s s'.
Proof.
  intros Hr. induction Hr as [s|s1 s2 s3 Hstep _ IH]; [apply rtc_refl|].
  by etrans; [apply ui_step_op_steps|].
Qed.

(** ** Instances *)

Lemma card_conservation_witness :
  riggedDeck ≡ₚ createDeck ∧
  zones lastEightState ≡ₚ riggedDeck ∧
  NoDup (id <$> zones lastEightState) ∧
  length (zones lastEightState) = 52.
Proof.
  assert (riggedDeck ≡ₚ createDeck) as Hp by (by apply (bool_decide_unpack _)).
  split; [exact Hp|].
  destruct (card_conservation riggedDeck Hp) as (s0 & Hd & Hall).
  assert (rtc op_step s0 lastEightState) as Hr.
  { apply ui_reachable_op_reachable, (run_reachable lastEightScript).
    vm_compute in Hd. injection Hd as <-. by vm_compute. }
  destruct (Hall lastEightState Hr) as (Hz & _ & Hnd & Hlen). done.
Defined.

Lemma termination_and_winner_witness :
  riggedDeck ≡ₚ createDeck ∧
  (status lastEightState = game_over ↔
     (playerHand lastEightState = [] ∨ aiHand lastEightState = []) ∧
     status lastEightState ≠ suit_picking) ∧
  status lastEightState = suit_picking ∧
  playerHand lastEightState = [] ∧
  ∀ su, status (settle (exec (pickSuit su) lastEightState)) = game_over ∧
        winner (settle (exec (pickSuit su) lastEightState)) = Some player.
Proof.
  assert (riggedDeck ≡ₚ createDeck) as Hp by (by apply (bool_decide_unpack _)).
  split; [exact Hp|].
  destruct (termination_and_winner riggedDeck Hp) as (s0 & Hd & _ & Hall).
  assert (rtc ui_step s0 lastEightState) as Hr.
  { apply (run_reachable lastEightScript).
    vm_compute in Hd. injection Hd as <-. by vm_compute. }
  destruct (Hall lastEightState Hr) as (Hover & _ & _ & _ & Hpick & _).
  split; [exact Hover|]. split; [reflexivity|]. split; [reflexivity|].
  exact (Hpick eq_refl eq_refl).
Defined.

Lemma rejected_actions_atomic_witness :
  (turn tiedSuitsState ≠ player ∨ status tiedSuitsState ≠ playing) ∧
  playCard tiedSuitsState (card R5 diamonds) = [] ∧
  drawCard tiedSuitsState = [] ∧
  turn playerEightState = player ∧ status playerEightState = playing ∧
  isLegalPlay (card R5 diamonds) spades RK = false ∧
  exec (playCard playerEightState (card R5 diamonds)) playerEightState
    = playerEightState ∧
  notifications (playCard playerEightState (card R5 diamonds)) = [MsgInvalidPlay].
Proof.
  assert (turn tiedSuitsState ≠ player ∨ status tiedSuitsState ≠ playing) as Hg
    by (left; discriminate).
  destruct (proj1 (rejected_actions_atomic
                     (mkApp tiedSuitsState MsgYourTurn false) (card R5 diamonds)) Hg)
    as (Hplay & Hdraw & _ & _).
  destruct (proj2 (rejected_actions_atomic
                     (mkApp playerEightState MsgYourTurn false) (card R5 diamonds))
              eq_refl eq_refl eq_refl)
    as (_ & _ & _ & Hexec & Hnote).
  split_and!; [exact Hg|exact Hplay|exact Hdraw|reflexivity|reflexivity|reflexivity
              |exact Hexec|exact Hnote].
Defined.

Lemma drawCard_spec_witness :
  turn playerEightState = player ∧ status playerEightState = playing ∧
  exec (drawCard playerEightState) playerEightState =
    mkGameState [card R8 hearts; card R5 diamonds; card R4 clubs]
      [card R3 clubs; card R9 clubs] [card R6 spades] [card RK spades]
      spades RK ai playing None.
Proof.
  split; [reflexivity|]. split; [reflexivity|].
  exact (drawCard_spec playerEightState eq_refl eq_refl).
Defined.

Lemma deal_scan_safety_witness :
  createDeck ≡ₚ createDeck ∧
  scanStartingCard (remainder createDeck) 0 = Returned 0 ∧
  (∃ s0, deal createDeck = Some s0) ∧
  Forall isEight (remainder reducedDeck) ∧
  initGame reducedDeck = TypeError ∧ deal reducedDeck = None.
Proof.
  split; [reflexivity|]. split; [reflexivity|].
  destruct (proj1 (deal_scan_safety createDeck) (reflexivity createDeck))
    as (i & first & _ & _ & _ & _ & _ & _ & Hd).
  split; [by eexists|].
  assert (Forall isEight (remainder reducedDeck)) as Hall
    by (vm_compute; by repeat constructor).
  split; [exact Hall|].
  exact (proj2 (proj2 (deal_scan_safety reducedDeck) Hall)).
Defined.

(** ** The scenarios of the specification *)

Example deal_sizes :
  (λ s, (length (playerHand s), length (aiHand s), length (drawPile s),
         length (discardPile s), turn s, status s, winner s)) <$> deal createDeck
  = Some (8, 8, 35, 1, player, playing, None).
Proof. reflexivity. Qed.

Example opponent_plays_eight_for_clubs :
  exec (handleAiTurn twoClubsState) twoClubsState =
    mkGameState [card R5 diamonds] [card R3 clubs; card R9 clubs] [card R4 clubs]
      [card R8 spades; card R2 hearts] clubs R8 player playing None.
Proof. reflexivity. Qed.

Example opponent_last_card_eight :
  bestSuit [] = spades.
Proof. reflexivity. Qed.

Example player_plays_seven_of_hearts :
  exec (playCard
          (mkGameState [card R7 hearts; card R5 diamonds] [card R3 clubs] []
             [card R9 hearts] hearts R9 player playing None)
          (card R7 hearts))
       (mkGameState [card R7 hearts; card R5 diamonds] [card R3 clubs] []
          [card R9 hearts] hearts R9 player playing None)
  = mkGameState [card R5 diamonds] [card R3 clubs] []
      [card R7 hearts; card R9 hearts] hearts R7 ai playing None.
Proof. reflexivity. Qed.

Example player_five_of_diamonds_rejected :
  playCard
    (mkGameState [card R7 spades; card R5 diamonds] [card R3 clubs] []
       [card R9 hearts] hearts R9 player playing None)
    (card R5 diamonds)
  = [SetMessage MsgInvalidPlay].
Proof. reflexivity. Qed.

(** * Further properties of the engine *)

(** ** Accepted plays *)

Lemma playCard_accepted (gs : GameState) (c : Card) :
  turn gs = player → status gs = playing →
  isLegalPlay c (currentSuit gs) (currentRank gs) = true →
  playCard gs c =
    if bool_decide (rank c = R8) then
      [ SetGameState (λ prev,
          mkGameState (filter (λ x, id x ≠ id c) (playerHand gs)) (aiHand prev)
            (drawPile prev) (c :: discardPile prev) (currentSuit prev)
            (currentRank prev) (turn prev) suit_picking (winner prev));
        SetMessage MsgEightPlayed ]
    else
      [ SetGameState (λ prev,
          mkGameState (filter (λ x, id x ≠ id c) (playerHand gs)) (aiHand prev)
            (drawPile prev) (c :: discardPile prev) (suit c) (rank c)
            ai (status prev) (winner prev));
        SetMessage (MsgPlayed (suit c) (rank c)) ].
Proof.
  intros Ht Hs Hl. unfold playCard. by rewrite (guard_active _ Ht Hs), Hl.
Qed.

(** X1: in an active player turn a legal card that is not an 8 leaves
    the hand (by id), lands on top of the discard pile, becomes the
    current suit and rank, and the turn goes to the opponent; with
    unique ids and the card in the hand, the hand loses exactly that one
    card. *)
Theorem playCard_plain_card (gs : GameState) (c : Card) :
  turn gs = player → status gs = playing → rank c ≠ R8 →
  suit c = currentSuit gs ∨ rank c = currentRank gs →
  exec (playCard gs c) gs =
    mkGameState (filter (λ x, id x ≠ id c) (playerHand gs)) (aiHand gs)
      (drawPile gs) (c :: discardPile gs) (suit c) (rank c) ai playing (winner gs)
  ∧ notifications (playCard gs c) = [MsgPlayed (suit c) (rank c)]
  ∧ (NoDup (id <$> playerHand gs) → c ∈ playerHand gs →
     playerHand gs ≡ₚ c :: playerHand (exec (playCard gs c) gs) ∧
     length (playerHand gs) = S (length (playerHand (exec (playCard gs c) gs)))).
Proof.
  intros Ht Hs Hr Hm.
  assert (isLegalPlay c (currentSuit gs) (currentRank gs) = true) as Hl.
  { apply isLegalPlay_true. tauto. }
  rewrite (playCard_accepted _ _ Ht Hs Hl), bool_decide_eq_false_2 by done.
  simpl. rewrite Hs. split_and!; [done..|]. intros Hnd Hin.
  pose proof (filter_id_remove _ _ Hnd Hin) as Hp. split; [done|].
  by rewrite Hp at 1.
Qed.

Lemma playCard_plain_card_witness :
  turn lastCardState = player ∧ status lastCardState = playing ∧
  rank (card R7 hearts) ≠ R8 ∧
  exec (playCard lastCardState (card R7 hearts)) lastCardState =
    mkGameState [] [card R3 clubs] [card R4 clubs]
      [card R7 hearts; card R9 hearts] hearts R7 ai playing None.
Proof.
  assert (rank (card R7 hearts) ≠ R8) as Hr by discriminate.
  split; [reflexivity|]. split; [reflexivity|]. split; [exact Hr|].
  exact (proj1 (playCard_plain_card lastCardState (card R7 hearts)
                  eq_refl eq_refl Hr (or_introl eq_refl))).
Defined.

(** X2: [playCard] does not look the card up in the hand.  In an active
    player turn a legal card whose id no card of the hand carries is
    accepted all the same: the hand stays as it is, the card is put on
    the discard pile, and the zones hold one card more than before. *)
Theorem playCard_card_not_in_hand (gs : GameState) (c : Card) :
  turn gs = player → status gs = playing →
  isLegalPlay c (currentSuit gs) (currentRank gs) = true →
  id c ∉ (id <$> playerHand gs) →
  playerHand (exec (playCard gs c) gs) = playerHand gs
  ∧ discardPile (exec (playCard gs c) gs) = c :: discardPile gs
  ∧ aiHand (exec (playCard gs c) gs) = aiHand gs
  ∧ drawPile (exec (playCard gs c) gs) = drawPile gs
  ∧ length (zones (exec (playCard gs c) gs)) = S (length (zones gs)).
Proof.
  intros Ht Hs Hl Hni. rewrite (playCard_accepted _ _ Ht Hs Hl).
  unfold zones.
  destruct (bool_decide (rank c = R8)); simpl;
    rewrite (filter_id_absent _ _ Hni), !length_app; simpl;
    split_and!; try done; lia.
Qed.

Lemma playCard_card_not_in_hand_witness :
  turn lastCardState = player ∧ status lastCardState = playing ∧
  isLegalPlay (card R3 hearts) hearts R9 = true ∧
  (id (card R3 hearts) ∉ (id <$> playerHand lastCardState)) ∧
  playerHand (exec (playCard lastCardState (card R3 hearts)) lastCardState)
    = [card R7 hearts] ∧
  discardPile (exec (playCard lastCardState (card R3 hearts)) lastCardState)
    = [card R3 hearts; card R9 hearts].
Proof.
  assert (id (card R3 hearts) ∉ (id <$> playerHand lastCardState)) as Hni.
  { by apply (bool_decide_unpack _). }
  split; [reflexivity|]. split; [reflexivity|]. split; [reflexivity|].
  split; [exact Hni|].
  destruct (playCard_card_not_in_hand lastCardState (card R3 hearts)
              eq_refl eq_refl eq_refl Hni) as (Hh & Hd & _).
  split; [exact Hh|exact Hd].
Defined.

(** X3: the cards the hand view marks as playable are exactly the cards
    [playCard] accepts: [isPlayable] is true if and only if [playCard]
    queues a state update, and where it is false the game state stays as
    it is. *)
Theorem isPlayable_iff_accepted (gs : GameState) (c : Card) :
  (isPlayable gs c = true ↔
     ∃ f m, playCard gs c = [SetGameState f; SetMessage m])
  ∧ (isPlayable gs c = false → exec (playCard gs c) gs = gs).
Proof.
  rewrite isPlayable_isLegalPlay. unfold playCard.
  destruct (decide (turn gs = player)) as [Ht|Ht];
    [destruct (decide (status gs = playing)) as [Hs|Hs]|].
  - rewrite (guard_active _ Ht Hs), !bool_decide_eq_true_2 by done. simpl.
    destruct (isLegalPlay c _ _); simpl.
    + split; [|done]. split; [intros _|done].
      destruct (bool_decide (rank c = R8)); eauto.
    + split; [|done]. split; [done|]. by intros (f & m & [=]).
  - rewrite guard_idle by (by right).
    rewrite (bool_decide_eq_false_2 (status gs = playing)) by done.
    rewrite andb_false_r. simpl. split; [|done]. split; [done|].
    by intros (f & m & [=]).
  - rewrite guard_idle by (by left).
    rewrite (bool_decide_eq_false_2 (turn gs = player)) by done. simpl.
    split; [|done]. split; [done|]. by intros (f & m & [=]).
Qed.

Lemma isPlayable_iff_accepted_witness :
  isPlayable playerEightState (card R5 diamonds) = false ∧
  exec (playCard playerEightState (card R5 diamonds)) playerEightState
    = playerEightState.
Proof.
  split; [reflexivity|].
  exact (proj2 (isPlayable_iff_accepted playerEightState (card R5 diamonds)) eq_refl).
Defined.

(** ** The win check on its own *)

Lemma settle_idle (s : GameState) : status s ≠ playing → settle s = s.
Proof.
  intros Hs. unfold settle, checkWin. by rewrite bool_decide_eq_false_2.
Qed.



(** ** Outside the playing phase *)

Lemma ui_step_idle (s s' : GameState) :
  status s = waiting ∨ status s = game_over → ui_step s s' → s' = s.
Proof.
  intros Hst Hstep.
  assert (status s ≠ playing) as Hn by (intros H; rewrite H in Hst; by destruct Hst).
  destruct Hstep as [s c _|s|s su Hg|s Hg].
  - unfold playCard. rewrite guard_idle by (by right). by apply settle_idle.
  - unfold drawCard. rewrite guard_idle by (by right). by apply settle_idle.
  - apply bool_decide_eq_true in Hg. rewrite Hg in Hst. by destruct Hst.
  - apply andb_true_iff in Hg as [Hg%bool_decide_eq_true _]. done.
Qed.

Lemma rtc_ui_idle (s s' : GameState) :
  status s = waiting ∨ status s = game_over → rtc ui_step s s' → s' = s.
Proof.
  intros Hst Hr. induction Hr as [s|s1 s2 s3 Hstep _ IH]; [done|].
  pose proof (ui_step_idle _ _ Hst Hstep) as ->. by apply IH.
Qed.



(** X6: the menu button only sets the phase to waiting: hands, piles,
    suit, rank, turn and the winner of the finished game stay in the
    state, and from there no interaction of the game changes anything
    (only a new deal does). *)
Theorem backToMenu_freezes (s : GameState) :
  exec backToMenu s =
    mkGameState (playerHand s) (aiHand s) (drawPile s) (discardPile s)
      (currentSuit s) (currentRank s) (turn s) waiting (winner s)
  ∧ ∀ s', rtc ui_step (exec backToMenu s) s' → s' = exec backToMenu s.
Proof.
  split; [done|]. intros s' Hr. apply rtc_ui_idle in Hr; [done|by left].
Qed.

(** ** The deal on any deck *)

Lemma deal_Some_inv (shuffled : list Card) (s0 : GameState) :
  deal shuffled = Some s0 →
  ∃ i first,
    remainder shuffled !! i = Some first ∧ rank first ≠ R8 ∧
    Forall isEight (take i (remainder shuffled)) ∧
    s0 = mkGameState (take 8 shuffled) (take 8 (drop 8 shuffled))
           (delete i (remainder shuffled)) [first]
           (suit first) (rank first) player playing None.
Proof.
  unfold deal, initGame. fold (remainder shuffled).
  pose proof (scanStartingCard_spec (remainder shuffled) 0) as Hscan.
  destruct (scanStartingCard (remainder shuffled) 0) as [i|]; [|done].
  destruct Hscan as (j & first & -> & Hj & Hf & Hall). simpl.
  rewrite Hj. intros [= <-]. by exists j, first.
Qed.

(** X7: on a deck of any size the deal fails exactly when no card after
    the two hands is a non-8; when it succeeds, the first non-8 card
    after the hands starts the discard pile and sets suit and rank, the
    8s skipped before it stay at the front of the draw pile, and the
    rest follows in shuffle order. *)
Theorem deal_characterised (shuffled : list Card) :
  (deal shuffled = None ↔ Forall isEight (remainder shuffled))
  ∧ ∀ s0, deal shuffled = Some s0 →
      ∃ eights first rest,
        remainder shuffled = eights ++ first :: rest ∧
        Forall isEight eights ∧ rank first ≠ R8 ∧
        s0 = mkGameState (take 8 shuffled) (take 8 (drop 8 shuffled))
               (eights ++ rest) [first]
               (suit first) (rank first) player playing None.
Proof.
  split.
  - split; [|by intros H; apply deal_all_eights].
    intros Hd. pose proof (scanStartingCard_spec (remainder shuffled) 0) as Hscan.
    unfold deal, initGame in Hd. fold (remainder shuffled) in Hd.
    destruct (scanStartingCard (remainder shuffled) 0) as [i|]; [|done].
    destruct Hscan as (j & first & -> & Hj & _). simpl in Hd. by rewrite Hj in Hd.
  - intros s0 (i & first & Hi & Hf & Hall & ->)%deal_Some_inv.
    exists (take i (remainder shuffled)), first, (drop (S i) (remainder shuffled)).
    split_and!; [by rewrite take_drop_middle|done|done|].
    by rewrite delete_take_drop.
Qed.

Lemma deal_characterised_witness :
  ∃ s0, deal riggedDeck = Some s0 ∧
        discardPile s0 = [card R9 hearts] ∧ currentSuit s0 = hearts ∧
        currentRank s0 = R9 ∧
        ∃ eights first rest, remainder riggedDeck = eights ++ first :: rest ∧
                             drawPile s0 = eights ++ rest.
Proof.
  destruct (deal riggedDeck) as [s0|] eqn:Hd; [|by vm_compute in Hd].
  exists s0.
  destruct (proj2 (deal_characterised riggedDeck) s0 Hd)
    as (eights & first & rest & Hr & _ & _ & Hs0).
  vm_compute in Hd. injection Hd as <-.
  split; [reflexivity|]. split; [reflexivity|]. split; [reflexivity|].
  split; [reflexivity|].
  exists eights, first, rest. split; [exact Hr|].
  by injection Hs0 as -> _ _ _.
Defined.

(** X8: a deal that succeeds gives each side exactly eight cards, puts
    one card on the discard pile and leaves all the others, seventeen
    fewer than the deck, in the draw pile; so every deck of fewer than
    seventeen cards fails. *)
Theorem deal_hand_sizes (shuffled : list Card) (s0 : GameState) :
  deal shuffled = Some s0 →
  length (playerHand s0) = 8 ∧ length (aiHand s0) = 8 ∧
  length (discardPile s0) = 1 ∧
  length (drawPile s0) + 17 = length shuffled.
Proof.
  intros (i & first & Hi & _ & _ & ->)%deal_Some_inv. simpl.
  pose proof (lookup_lt_Some _ _ _ Hi) as Hlt.
  rewrite length_delete by eauto.
  rewrite remainder_drop, length_drop in *.
  rewrite !length_take, length_drop. lia.
Qed.

Lemma deal_hand_sizes_witness :
  ∃ s0, deal createDeck = Some s0 ∧
        length (playerHand s0) = 8 ∧ length (aiHand s0) = 8 ∧
        length (discardPile s0) = 1 ∧ length (drawPile s0) + 17 = 52.
Proof.
  destruct (deal createDeck) as [s0|] eqn:Hd; [|by vm_compute in Hd].
  exists s0. split; [reflexivity|]. exact (deal_hand_sizes createDeck s0 Hd).
Defined.

(** ** What the opponent puts on the pile *)

Lemma matches_legal cs cr (c : Card) : matches cs cr c → isLegalPlay c cs cr = true.
Proof. intros [_ H]. apply isLegalPlay_true. tauto. Qed.

Lemma eight_legal cs cr (c : Card) : rank c = R8 → isLegalPlay c cs cr = true.
Proof. intros H. apply isLegalPlay_true. tauto. Qed.

Lemma legal_matches_or_eight cs cr (c : Card) :
  isLegalPlay c cs cr = true → matches cs cr c ∨ rank c = R8.
Proof.
  intros H%isLegalPlay_true. unfold matches.
  destruct (decide (rank c = R8)); tauto.
Qed.

Lemma cons_neq_self {A} (x : A) (l : list A) : x :: l ≠ l.
Proof. intros H%(f_equal length). simpl in H. lia. Qed.

Lemma handleAiTurn_discard (s : GameState) (c : Card) :
  discardPile (exec (handleAiTurn s) s) = c :: discardPile s →
  isLegalPlay c (currentSuit s) (currentRank s) = true ∧ c ∈ aiHand s ∧
  length (aiHand s) = S (length (aiHand (exec (handleAiTurn s) s))).
Proof.
  destruct (handleAiTurn_branch s) as [b Hb].
  destruct Hb as [before x after Hl _ Hx ->|before x after _ Hl _ Hx ->
                 |d rest _ _ _ ->|_ _ _ ->]; simpl.
  - intros [= <-]. rewrite Hl, !length_app. simpl.
    split_and!; [by apply matches_legal|set_solver|lia].
  - intros [= <-]. rewrite Hl, !length_app. simpl.
    split_and!; [by apply eight_legal|set_solver|lia].
  - intros H. symmetry in H. by apply cons_neq_self in H.
  - intros H. symmetry in H. by apply cons_neq_self in H.
Qed.

Lemma handleAiTurn_plays (s : GameState) (c : Card) :
  c ∈ aiHand s → isLegalPlay c (currentSuit s) (currentRank s) = true →
  ∃ x, discardPile (exec (handleAiTurn s) s) = x :: discardPile s.
Proof.
  intros Hin Hl. destruct (handleAiTurn_branch s) as [b Hb].
  destruct Hb as [before x after _ _ _ ->|before x after _ _ _ _ ->
                 |d rest Hn He _ _|Hn He _ _]; simpl; [by eexists..| |];
    exfalso; apply legal_matches_or_eight in Hl as [Hm|Hr];
    solve [ by apply (proj1 (Forall_forall _ _) Hn c Hin)
          | by apply (proj1 (Forall_forall _ _) He c Hin) ].
Qed.

(** X9: the opponent never puts an illegal card on the pile: whenever
    its turn adds a card to the discard pile, that card came out of its
    hand, which loses exactly that card, it passes the legality test
    against the suit and rank that were current, and its rank is the new
    current rank. *)
Theorem opponent_plays_legal (s : GameState) (c : Card) :
  discardPile (exec (handleAiTurn s) s) = c :: discardPile s →
  isLegalPlay c (currentSuit s) (currentRank s) = true ∧ c ∈ aiHand s ∧
  length (aiHand s) = S (length (aiHand (exec (handleAiTurn s) s))) ∧
  aiHand s ≡ₚ c :: aiHand (exec (handleAiTurn s) s) ∧
  currentRank (exec (handleAiTurn s) s) = rank c.
Proof.
  intros Hd. destruct (handleAiTurn_discard s c Hd) as (Hl & Hin & Hlen).
  split_and!; [done..| |].
  - destruct (handleAiTurn_branch s) as [b Hb].
    destruct Hb as [before x after Hh _ _ Hs'|before x after _ Hh _ _ Hs'
                   |d rest _ _ _ Hs'|_ _ _ Hs']; rewrite Hs' in Hd |- *;
      simpl in *; try (symmetry in Hd; by apply cons_neq_self in Hd);
      injection Hd as <-; rewrite Hh; by rewrite Permutation_middle.
  - destruct (handleAiTurn_branch s) as [b Hb].
    destruct Hb as [before x after _ _ _ Hs'|before x after _ _ _ Hx Hs'
                   |d rest _ _ _ Hs'|_ _ _ Hs']; rewrite Hs' in Hd |- *;
      simpl in *; try (symmetry in Hd; by apply cons_neq_self in Hd);
      by injection Hd as <-.
Qed.

Lemma opponent_plays_legal_witness :
  discardPile (exec (handleAiTurn tiedSuitsState) tiedSuitsState)
    = card R8 spades :: discardPile tiedSuitsState ∧
  isLegalPlay (card R8 spades) diamonds RK = true ∧
  card R8 spades ∈ aiHand tiedSuitsState.
Proof.
  split; [reflexivity|].
  destruct (opponent_plays_legal tiedSuitsState (card R8 spades) eq_refl)
    as (Hl & Hin & _ & _ & _).
  split; [exact Hl|exact Hin].
Defined.

(** X10: the opponent plays whenever it can: its turn puts a card on the
    discard pile if and only if its hand holds a card that passes the
    legality test; it draws or passes only without one, and then the
    discard pile is untouched and the hand does not shrink. *)
Theorem opponent_plays_when_it_can (s : GameState) :
  ((∃ c, c ∈ aiHand s ∧ isLegalPlay c (currentSuit s) (currentRank s) = true)
   ↔ ∃ x, discardPile (exec (handleAiTurn s) s) = x :: discardPile s)
  ∧ ((∀ c, c ∈ aiHand s → isLegalPlay c (currentSuit s) (currentRank s) = false) →
     discardPile (exec (handleAiTurn s) s) = discardPile s ∧
     currentSuit (exec (handleAiTurn s) s) = currentSuit s ∧
     currentRank (exec (handleAiTurn s) s) = currentRank s ∧
     length (aiHand s) ≤ length (aiHand (exec (handleAiTurn s) s))).
Proof.
  split.
  - split.
    + intros (c & Hin & Hl). by eapply handleAiTurn_plays.
    + intros (x & Hx). exists x. apply handleAiTurn_discard in Hx. tauto.
  - intros Hnone. destruct (handleAiTurn_branch s) as [b Hb].
    destruct Hb as [before x after Hl _ Hx _|before x after _ Hl _ Hx _
                   |d rest _ _ _ ->|_ _ _ ->]; simpl.
    + exfalso. apply matches_legal in Hx. rewrite Hnone in Hx; [done|].
      rewrite Hl. set_solver.
    + exfalso. apply (eight_legal (currentSuit s) (currentRank s)) in Hx.
      rewrite Hnone in Hx; [done|]. rewrite Hl. set_solver.
    + rewrite length_app. simpl. split_and!; [done..|lia].
    + done.
Qed.

Lemma opponent_plays_when_it_can_witness :
  (∀ c, c ∈ aiHand stalemateState → isLegalPlay c spades RK = false) ∧
  discardPile (exec (handleAiTurn stalemateState) stalemateState)
    = discardPile stalemateState.
Proof.
  assert (∀ c, c ∈ aiHand stalemateState → isLegalPlay c spades RK = false) as Hn.
  { intros c Hin. apply list_elem_of_singleton in Hin. by subst c. }
  split; [exact Hn|].
  exact (proj1 (proj2 (opponent_plays_when_it_can stalemateState) Hn)).
Defined.

(** ** The piles *)

Lemma op_step_piles (s s' : GameState) :
  op_step s s' →
  drawPile s' `suffix_of` drawPile s ∧ discardPile s `suffix_of` discardPile s'.
Proof.
  intros Hstep. destruct Hstep as [s c _|s|s su|s|s].
  - unfold playCard. destruct (_ || _); [done|]. destruct (negb _); [done|].
    destruct (bool_decide (rank c = R8)); simpl; split; try done;
      by apply suffix_cons_r.
  - unfold drawCard. destruct (_ || _); [done|].
    destruct (drawPile s) as [|d rest] eqn:Hd; simpl; rewrite ?Hd; split; try done.
    by apply suffix_cons_r.
  - done.
  - destruct (handleAiTurn_branch s) as [b Hb].
    destruct Hb as [before x after _ _ _ ->|before x after _ _ _ _ ->
                   |d rest _ _ Hd ->|_ _ _ ->]; simpl; rewrite ?Hd;
      split; try done; by apply suffix_cons_r.
  - unfold checkWin. by repeat case_bool_decide.
Qed.

(** X11: the piles only ever move one way.  Along any run of the
    operations the draw pile is a tail of what it was and the discard
    pile keeps everything it held underneath what was added; the discard
    pile is never turned back into a draw pile, so an empty draw pile
    stays empty. *)
Theorem piles_monotone (s s' : GameState) :
  rtc op_step s s' →
  drawPile s' `suffix_of` drawPile s
  ∧ discardPile s `suffix_of` discardPile s'
  ∧ length (drawPile s') ≤ length (drawPile s)
  ∧ (drawPile s = [] → drawPile s' = []).
Proof.
  intros Hr.
  assert (drawPile s' `suffix_of` drawPile s ∧
          discardPile s `suffix_of` discardPile s') as [Hd Hp].
  { induction Hr as [s|s1 s2 s3 Hstep _ [IH1 IH2]]; [done|].
    destruct (op_step_piles _ _ Hstep) as [H1 H2].
    split; by etrans. }
  split_and!; [done|done|by apply suffix_length|].
  intros He. rewrite He in Hd. by apply suffix_nil_inv in Hd.
Qed.

Lemma piles_monotone_witness :
  rtc op_step stalemateState (exec (drawCard stalemateState) stalemateState) ∧
  drawPile (exec (drawCard stalemateState) stalemateState) = [].
Proof.
  assert (rtc op_step stalemateState
            (exec (drawCard stalemateState) stalemateState)) as Hr
    by apply rtc_once, op_drawCard.
  split; [exact Hr|].
  exact (proj2 (proj2 (proj2 (piles_monotone _ _ Hr))) eq_refl).
Defined.

(** ** Stalemate *)

Lemma settle_both_hands (s : GameState) :
  playerHand s ≠ [] → aiHand s ≠ [] → settle s = s.
Proof.
  intros Hp Ha. unfold settle, checkWin.
  destruct (playerHand s) as [|p ph]; [done|].
  destruct (aiHand s) as [|a ah]; [done|]. simpl.
  by destruct (bool_decide (status s = playing)).
Qed.

Lemma handleAiTurn_pass (s : GameState) :
  (∀ c, c ∈ aiHand s → isLegalPlay c (currentSuit s) (currentRank s) = false) →
  drawPile s = [] →
  exec (handleAiTurn s) s =
    mkGameState (playerHand s) (aiHand s) (drawPile s) (discardPile s)
      (currentSuit s) (currentRank s) player (status s) (winner s).
Proof.
  intros Hnone Hd. destruct (handleAiTurn_branch s) as [b Hb].
  destruct Hb as [before x after Hl _ Hx _|before x after _ Hl _ Hx _
                 |d rest _ _ Hd' _|_ _ _ ->].
  - exfalso. apply matches_legal in Hx. rewrite Hnone in Hx; [done|].
    rewrite Hl. set_solver.
  - exfalso. apply (eight_legal (currentSuit s) (currentRank s)) in Hx.
    rewrite Hnone in Hx; [done|]. rewrite Hl. set_solver.
  - congruence.
  - done.
Qed.

Lemma ui_step_cases (s s' : GameState) :
  ui_step s s' →
  (∃ c, c ∈ playerHand s ∧ s' = settle (exec (playCard s c) s))
  ∨ s' = settle (exec (drawCard s) s)
  ∨ (∃ su, suitPickerShown s = true ∧ s' = settle (exec (pickSuit su) s))
  ∨ (aiTurnDue s = true ∧ s' = settle (exec (handleAiTurn s) s)).
Proof. intros Hstep. destruct Hstep; eauto 6. Qed.

(** X12: the game can stall for good.  With the draw pile empty and no
    legal card in either hand, the player's draw only hands the turn
    over, the opponent passes it back, and every interaction leads to
    one of these two states: the phase stays playing and no winner is
    ever set. *)
Theorem stalemate_cycle (s : GameState) :
  turn s = player → status s = playing → drawPile s = [] →
  playerHand s ≠ [] → aiHand s ≠ [] →
  (∀ c, c ∈ playerHand s → isLegalPlay c (currentSuit s) (currentRank s) = false) →
  (∀ c, c ∈ aiHand s → isLegalPlay c (currentSuit s) (currentRank s) = false) →
  ui_step s (exec (drawCard s) s)
  ∧ ui_step (exec (drawCard s) s) s
  ∧ exec (drawCard s) s ≠ s
  ∧ ∀ s', rtc ui_step s s' →
      (s' = s ∨ s' = exec (drawCard s) s) ∧ status s' = playing ∧ winner s' = winner s.
Proof.
  intros Ht Hs Hd Hp Ha Hnp Hna.
  set (s1 := mkGameState (playerHand s) (aiHand s) [] (discardPile s)
               (currentSuit s) (currentRank s) ai playing (winner s)).
  assert (exec (drawCard s) s = s1) as Hdraw.
  { unfold drawCard. rewrite (guard_active _ Ht Hs), Hd. simpl.
    by rewrite Hs, Hd. }
  assert (exec (handleAiTurn s1) s1 = s) as Hai.
  { rewrite handleAiTurn_pass by done. destruct s; simpl in *; by subst. }
  assert (settle s = s) as Hss by (by apply settle_both_hands).
  assert (settle s1 = s1) as Hss1 by (by apply settle_both_hands).
  assert (∀ s', ui_step s s' → s' = s ∨ s' = s1) as Hfrom.
  { intros s' [(c & Hin & ->)|[->|[(su & Hg & ->)|[Hg ->]]]]%ui_step_cases.
    - left. unfold playCard. rewrite (guard_active _ Ht Hs), (Hnp c Hin). done.
    - right. by rewrite Hdraw.
    - apply bool_decide_eq_true in Hg. congruence.
    - apply andb_true_iff in Hg as [_ Hg%bool_decide_eq_true]. congruence. }
  assert (∀ s', ui_step s1 s' → s' = s ∨ s' = s1) as Hfrom1.
  { intros s' [(c & Hin & ->)|[->|[(su & Hg & ->)|[Hg ->]]]]%ui_step_cases.
    - right. unfold playCard. rewrite guard_idle by (by left). done.
    - right. unfold drawCard. rewrite guard_idle by (by left). done.
    - by apply bool_decide_eq_true in Hg.
    - left. by rewrite Hai. }
  rewrite Hdraw. split_and!.
  - pose proof (ui_drawCard s) as Hstep. by rewrite Hdraw, Hss1 in Hstep.
  - pose proof (ui_handleAiTurn s1 eq_refl) as Hstep.
    by rewrite Hai, Hss in Hstep.
  - intros H%(f_equal turn). simpl in H. congruence.
  - intros s' Hr.
    assert (s' = s ∨ s' = s1) as Hor.
    { assert (∀ a, a = s ∨ a = s1 → rtc ui_step a s' → s' = s ∨ s' = s1) as Hgen.
      { clear Hr. intros a Ha0 Hr. induction Hr as [a|a b c Hstep _ IH]; [done|].
        apply IH. destruct Ha0 as [->| ->]; auto. }
      by apply (Hgen s); [left|]. }
    split; [done|]. by destruct Hor as [->| ->].
Qed.

Lemma stalemate_cycle_witness :
  turn stalemateState = player ∧ status stalemateState = playing ∧
  drawPile stalemateState = [] ∧
  ui_step stalemateState (exec (drawCard stalemateState) stalemateState) ∧
  ui_step (exec (drawCard stalemateState) stalemateState) stalemateState.
Proof.
  assert (∀ c, c ∈ playerHand stalemateState → isLegalPlay c spades RK = false) as Hp.
  { intros c Hin. apply list_elem_of_singleton in Hin. by subst c. }
  assert (∀ c, c ∈ aiHand stalemateState → isLegalPlay c spades RK = false) as Ha.
  { intros c Hin. apply list_elem_of_singleton in Hin. by subst c. }
  destruct (stalemate_cycle stalemateState eq_refl eq_refl eq_refl
              ltac:(discriminate) ltac:(discriminate) Hp Ha) as (H1 & H2 & _).
  split; [reflexivity|]. split; [reflexivity|]. split; [reflexivity|].
  split; [exact H1|exact H2].
Defined.

(** ** The last card *)

Lemma single_middle {A} (before after : list A) (x c : A) :
  [c] = before ++ x :: after → before = [] ∧ after = [] ∧ x = c.
Proof.
  destruct before as [|b before]; simpl.
  - by intros [= -> <-].
  - intros [= _ H]. by destruct before.
Qed.

(** X13: shedding the last card ends the game at once, except for the
    player's 8.  When the player's only card is a legal non-8 card,
    playing it and the win check that follows leave the game over with
    the player as winner and no opponent turn due; when the opponent's
    only card is legal, an 8 included, its turn leaves the game over
    with the opponent as winner. *)
Theorem last_card_ends_game (s : GameState) (c : Card) :
  status s = playing →
  isLegalPlay c (currentSuit s) (currentRank s) = true →
  (turn s = player → playerHand s = [c] → rank c ≠ R8 →
     playerHand (settle (exec (playCard s c) s)) = [] ∧
     status (settle (exec (playCard s c) s)) = game_over ∧
     winner (settle (exec (playCard s c) s)) = Some player ∧
     aiTurnDue (settle (exec (playCard s c) s)) = false)
  ∧ (aiHand s = [c] → playerHand s ≠ [] →
     aiHand (settle (exec (handleAiTurn s) s)) = [] ∧
     discardPile (settle (exec (handleAiTurn s) s)) = c :: discardPile s ∧
     status (settle (exec (handleAiTurn s) s)) = game_over ∧
     winner (settle (exec (handleAiTurn s) s)) = Some ai).
Proof.
  intros Hs Hl. split.
  - intros Ht Hh Hr. rewrite (playCard_accepted _ _ Ht Hs Hl).
    rewrite bool_decide_eq_false_2 by done. rewrite Hh.
    rewrite filter_cons_False by (intros H; by apply H).
    unfold settle, checkWin. simpl. rewrite Hs. done.
  - intros Hh Hp.
    assert (c ∈ aiHand s) as Hin by (rewrite Hh; set_solver).
    destruct (handleAiTurn_branch s) as [b Hb].
    destruct Hb as [before x after Hx _ _ ->|before x after _ Hx _ _ ->
                   |d rest Hn He _ _|Hn He _ _].
    + rewrite Hh in Hx. apply single_middle in Hx as (-> & -> & ->).
      unfold settle, checkWin. simpl. rewrite Hs.
      destruct (playerHand s); done.
    + rewrite Hh in Hx. apply single_middle in Hx as (-> & -> & ->).
      unfold settle, checkWin. simpl. rewrite Hs.
      destruct (playerHand s); done.
    + exfalso. apply legal_matches_or_eight in Hl as [Hm|Hr].
      * by apply (proj1 (Forall_forall _ _) Hn c Hin).
      * by apply (proj1 (Forall_forall _ _) He c Hin).
    + exfalso. apply legal_matches_or_eight in Hl as [Hm|Hr].
      * by apply (proj1 (Forall_forall _ _) Hn c Hin).
      * by apply (proj1 (Forall_forall _ _) He c Hin).
Qed.

Lemma last_card_ends_game_witness :
  status aiLastEightState = playing ∧
  isLegalPlay (card R8 spades) diamonds RK = true ∧
  aiHand aiLastEightState = [card R8 spades] ∧
  status (settle (exec (handleAiTurn aiLastEightState) aiLastEightState)) = game_over ∧
  winner (settle (exec (handleAiTurn aiLastEightState) aiLastEightState)) = Some ai.
Proof.
  split; [reflexivity|]. split; [reflexivity|]. split; [reflexivity|].
  destruct (proj2 (last_card_ends_game aiLastEightState (card R8 spades)
                     eq_refl eq_refl) eq_refl ltac:(discriminate))
    as (_ & _ & Hst & Hw).
  split; [exact Hst|exact Hw].
Defined.

(** ** The active card *)

Lemma settle_activeCard (s : GameState) : activeCard s → activeCard (settle s).
Proof.
  destruct s as [ph ah dp di cs cr t st w]. unfold activeCard, settle, checkWin.
  simpl. destruct di as [|top di]; [done|].
  destruct st; simpl; try done.
  destruct ph as [|p ph], ah as [|a ah]; simpl; done.
Qed.

Lemma ui_step_activeCard (s s' : GameState) :
  activeCard s → ui_step s s' → activeCard s'.
Proof.
  intros Hac [(c & Hin & ->)|[->|[(su & Hg & ->)|[Hg ->]]]]%ui_step_cases;
    apply settle_activeCard.
  - unfold playCard. destruct (_ || _) eqn:Hgd; [done|].
    apply orb_false_iff in Hgd as [Ht%bool_decide_eq_false Hst%bool_decide_eq_false].
    apply dec_stable in Ht. apply dec_stable in Hst.
    destruct (negb _); [done|].
    unfold activeCard. case_bool_decide as Hr; simpl.
    + done.
    + rewrite Hst. by rewrite bool_decide_eq_false_2.
  - unfold drawCard. destruct (_ || _) eqn:Hgd; [done|].
    apply orb_false_iff in Hgd as [_ Hst%bool_decide_eq_false].
    apply dec_stable in Hst. unfold activeCard in *.
    destruct (drawPile s); simpl; by rewrite Hst in *.
  - apply bool_decide_eq_true in Hg. unfold activeCard in *. simpl.
    rewrite Hg in Hac. destruct (discardPile s) as [|top di]; [done|].
    destruct Hac as [Hr _]. by rewrite bool_decide_eq_true_2.
  - apply andb_true_iff in Hg as [Hst%bool_decide_eq_true _].
    destruct (handleAiTurn_branch s) as [b Hb]. unfold activeCard in *.
    destruct Hb as [before x after _ _ [Hx _] ->|before x after _ _ _ Hx ->
                   |d rest _ _ _ ->|_ _ _ ->]; simpl; rewrite Hst in *.
    + by rewrite bool_decide_eq_false_2.
    + by rewrite bool_decide_eq_true_2.
    + done.
    + done.
Qed.

Lemma deal_activeCard (shuffled : list Card) (s0 : GameState) :
  deal shuffled = Some s0 → activeCard s0.
Proof.
  intros (i & first & _ & Hf & _ & ->)%deal_Some_inv. unfold activeCard. simpl.
  by rewrite bool_decide_eq_false_2.
Qed.

(** X14: in every state the wired component reaches from a deal (of any
    deck) the discard pile is not empty and its top card fits the
    current suit and rank: while a suit is being picked the top card is
    the player's 8 and the turn is the player's; otherwise an 8 on top
    goes with current rank 8, and any other top card is the current suit
    and rank itself. *)
Theorem active_card_invariant (shuffled : list Card) (s0 s : GameState) :
  deal shuffled = Some s0 → rtc ui_step s0 s →
  ∃ top rest,
    discardPile s = top :: rest ∧ status s ≠ waiting
    ∧ (status s = suit_picking → rank top = R8 ∧ turn s = player)
    ∧ (status s ≠ suit_picking → rank top = R8 → currentRank s = R8)
    ∧ (status s ≠ suit_picking → rank top ≠ R8 →
       currentSuit s = suit top ∧ currentRank s = rank top).
Proof.
  intros Hd Hr.
  assert (activeCard s) as Hac.
  { pose proof (deal_activeCard _ _ Hd) as H0. clear Hd.
    induction Hr as [s|s1 s2 s3 Hstep _ IH]; [done|].
    apply IH. by eapply ui_step_activeCard. }
  unfold activeCard in Hac. destruct (discardPile s) as [|top rest]; [done|].
  exists top, rest. split; [done|].
  destruct (status s); try done; split_and!; try done.
  - intros _ Hr8. by rewrite bool_decide_eq_true_2 in Hac.
  - intros _ Hr8. by rewrite bool_decide_eq_false_2 in Hac.
  - intros _ Hr8. by rewrite bool_decide_eq_true_2 in Hac.
  - intros _ Hr8. by rewrite bool_decide_eq_false_2 in Hac.
Qed.

Lemma active_card_invariant_witness :
  ∃ s0, deal riggedDeck = Some s0 ∧ rtc ui_step s0 lastEightState ∧
        ∃ top rest, discardPile lastEightState = top :: rest ∧ rank top = R8 ∧
                    turn lastEightState = player.
Proof.
  destruct (deal riggedDeck) as [s0|] eqn:Hd; [|by vm_compute in Hd].
  exists s0. split; [reflexivity|].
  assert (rtc ui_step s0 lastEightState) as Hr.
  { apply (run_reachable lastEightScript).
    vm_compute in Hd. injection Hd as <-. by vm_compute. }
  split; [exact Hr|].
  destruct (active_card_invariant riggedDeck s0 lastEightState Hd Hr)
    as (top & rest & Hdp & _ & Hpick & _).
  exists top, rest. split; [exact Hdp|]. exact (Hpick eq_refl).
Defined.

(** ** The opponent's suit *)

(** X15: when one suit has strictly more cards in the hand than each of
    the other three, that suit is the opponent's choice. *)
Theorem bestSuit_unique_max (hand : list Card) (su : Suit) :
  (∀ s, s ≠ su → suitCount hand s < suitCount hand su) →
  bestSuit hand = su.
Proof.
  intros Hmax. destruct (decide (bestSuit hand = su)) as [|Hne]; [done|].
  exfalso. specialize (Hmax _ Hne).
  pose proof (proj1 (pickBestSuit_last_max (countSuits hand)) su) as Hle.
  fold (bestSuit hand) in Hle. rewrite !countSuits_suitCount in Hle. lia.
Qed.

Lemma bestSuit_unique_max_witness :
  (∀ s, s ≠ clubs →
        suitCount [card R3 clubs; card R9 clubs; card R2 hearts] s
        < suitCount [card R3 clubs; card R9 clubs; card R2 hearts] clubs) ∧
  bestSuit [card R3 clubs; card R9 clubs; card R2 hearts] = clubs.
Proof.
  assert (∀ s, s ≠ clubs →
        suitCount [card R3 clubs; card R9 clubs; card R2 hearts] s
        < suitCount [card R3 clubs; card R9 clubs; card R2 hearts] clubs) as Hmax.
  { intros [] Hne; vm_compute; try lia. by destruct Hne. }
  split; [exact Hmax|]. exact (bestSuit_unique_max _ clubs Hmax).
Defined.

(** ** Turn alternation *)

Lemma settle_turn (s : GameState) : turn (settle s) = turn s.
Proof. unfold settle, checkWin. by repeat case_bool_decide. Qed.

(** X16: turns alternate.  In the playing phase with cards in both hands,
    an interaction that changes the state at all hands the turn to the
    other side: after the player's move the turn is the opponent's,
    unless an 8 opened the suit-picking phase (the turn then stays with
    the player); after the opponent's move it is the player's; and the
    player's handlers do nothing during the opponent's turn. *)
Theorem turn_alternation (s s' : GameState) :
  status s = playing → playerHand s ≠ [] → aiHand s ≠ [] →
  ui_step s s' → s' ≠ s →
  (turn s = player →
     turn s' = ai ∨ (status s' = suit_picking ∧ turn s' = player))
  ∧ (turn s = ai →
     turn s' = player ∧ s' = settle (exec (handleAiTurn s) s)).
Proof.
  intros Hs Hp Ha Hstep Hne.
  pose proof (settle_both_hands s Hp Ha) as Hss.
  apply ui_step_cases in Hstep as [(c & Hin & ->)|[->|[(su & Hg & ->)|[Hg ->]]]].
  - split; intros Ht.
    + revert Hne. rewrite settle_turn. unfold playCard.
      rewrite (guard_active _ Ht Hs).
      destruct (negb _).
      { change (exec [SetMessage MsgInvalidPlay] s) with s. rewrite Hss.
        intros H. by destruct H. }
      intros _.
      case_bool_decide; simpl.
      * right. by split.
      * by left.
    + exfalso. apply Hne. unfold playCard.
      rewrite guard_idle by (left; congruence). done.
  - split; intros Ht.
    + left. rewrite settle_turn. unfold drawCard. rewrite (guard_active _ Ht Hs).
      by destruct (drawPile s).
    + exfalso. apply Hne. unfold drawCard.
      rewrite guard_idle by (left; congruence). done.
  - apply bool_decide_eq_true in Hg. congruence.
  - apply andb_true_iff in Hg as [_ Hg%bool_decide_eq_true].
    split; intros Ht; [congruence|]. split; [|done].
    rewrite settle_turn. apply handleAiTurn_frame.
Qed.

Lemma turn_alternation_witness :
  status playerEightState = playing ∧ turn playerEightState = player ∧
  ui_step playerEightState (settle (exec (drawCard playerEightState) playerEightState)) ∧
  (turn (settle (exec (drawCard playerEightState) playerEightState)) = ai ∨
   (status (settle (exec (drawCard playerEightState) playerEightState)) = suit_picking ∧
    turn (settle (exec (drawCard playerEightState) playerEightState)) = player)).
Proof.
  split; [reflexivity|]. split; [reflexivity|].
  split; [apply ui_drawCard|].
  exact (proj1 (turn_alternation playerEightState _ eq_refl
                  ltac:(discriminate) ltac:(discriminate)
                  (ui_drawCard playerEightState) ltac:(discriminate)) eq_refl).
Defined.
